(** * proposal_app.py: text normalisation and the "Generate Proposal" handler

    A shallow embedding of [src/proposal_app.py].

    - Python [str] values are sequences of Unicode code points: [pystr] is
      [list N].  String literals of the script that are plain ASCII are
      written with [py "..."]; the few symbols outside ASCII are given by
      their code points.
    - [re.sub(pattern, "", text)] is modelled by [re_sub], a left-to-right
      scan that deletes every leftmost non-overlapping match; the two
      patterns of the script are the matchers [match_stars] and
      [match_bracket].
    - [str.strip()] is [py_strip], over Python's own table of white space.
    - The Streamlit calls, the OpenAI call, the FPDF calls and the file
      accesses are effects: the script runs in the monad [Script], a log
      of [event]s together with a [result] that tells a normal end from a
      raised [Exception] and from [st.stop()].  The generation call, the
      FPDF calls after the font check, [pdf.output] and [open] can raise,
      as the outside world decides. *)

From Stdlib Require Import String Ascii List NArith ZArith Bool Lia.
From Stdlib Require Import Numbers.DecimalString.
From Equations Require Import Equations.
Import ListNotations.

(** ** Python strings *)

Module PyStr.

#[warning="-notation-for-abbreviation"]
Notation char := N (only parsing).
#[warning="-notation-for-abbreviation"]
Notation pystr := (list N) (only parsing).

(** An ASCII literal of the script, as code points. *)
Definition py (s : string) : pystr := map N_of_ascii (list_ascii_of_string s).

Definition ch_newline : char := 10%N.   (* "\n" *)
Definition ch_star : char := 42%N.      (* "*" *)
Definition ch_lbracket : char := 91%N.  (* "[" *)
Definition ch_rbracket : char := 93%N.  (* "]" *)

(** [str.strip()] without argument removes the characters for which
    [str.isspace] holds; this is CPython's table of white space. *)
Definition py_isspace (c : char) : bool :=
  ((9 <=? c) && (c <=? 13) || (28 <=? c) && (c <=? 32)
   || (c =? 133) || (c =? 160) || (c =? 5760)
   || (8192 <=? c) && (c <=? 8202)
   || (c =? 8232) || (c =? 8233) || (c =? 8239) || (c =? 8287)
   || (c =? 12288))%N.

Fixpoint dropwhile (p : char -> bool) (s : pystr) : pystr :=
  match s with
  | [] => []
  | c :: r => if p c then dropwhile p r else s
  end.

Definition py_lstrip (s : pystr) : pystr := dropwhile py_isspace s.
Definition py_rstrip (s : pystr) : pystr := rev (dropwhile py_isspace (rev s)).

(** [text.strip()] *)
Definition py_strip (s : pystr) : pystr := py_rstrip (py_lstrip s).

(** [str(n)] for an [int]. *)
Definition py_str_int (n : Z) : pystr := py (NilEmpty.string_of_int (Z.to_int n)).

(** [x] occurs in [t] as a contiguous piece. *)
Definition infix (x t : pystr) : Prop := exists a b, t = a ++ x ++ b.

End PyStr.
Import PyStr.

(** ** Regular-expression substitution *)

Module Re.

(** A matcher tells, for the text that starts at the current position,
    how many characters the pattern matches there ([None]: no match at
    this position). *)
Definition matcher := pystr -> option nat.

(** [re.sub(pattern, "", text)]: scan from the left; where the pattern
    matches, drop the matched characters and go on after them; elsewhere
    keep the character.  [skip] counts the characters of the current match
    still to drop.  A match of length nought is replaced by the empty
    string, which keeps the character. *)
Fixpoint re_sub_from (m : matcher) (skip : nat) (s : pystr) : pystr :=
  match s with
  | [] => []
  | c :: r =>
      match skip with
      | S k => re_sub_from m k r
      | O =>
          match m s with
          | Some (S k) => re_sub_from m k r
          | _ => c :: re_sub_from m 0 r
          end
      end
  end.

Definition re_sub (m : matcher) (s : pystr) : pystr := re_sub_from m 0 s.

(** Number of [*] at the head of the text. *)
Fixpoint count_stars (s : pystr) : nat :=
  match s with
  | c :: r => if (c =? ch_star)%N then S (count_stars r) else 0
  | [] => 0
  end.

(** The pattern [\*+]: greedy, one or more [*]. *)
Definition match_stars : matcher := fun s =>
  match count_stars s with
  | O => None
  | n => Some n
  end.

(** The tail [.*?\]] of the second pattern: the lazy [.*?] takes as few
    characters as it can, so the match stops at the first "]"; [.] does not
    match a newline (no DOTALL flag), so a newline met before that "]"
    makes the match fail.  The result counts the characters up to and with
    the "]". *)
Fixpoint scan_close (s : pystr) : option nat :=
  match s with
  | [] => None
  | c :: r =>
      if (c =? ch_rbracket)%N then Some 1
      else if (c =? ch_newline)%N then None
      else option_map S (scan_close r)
  end.

(** The pattern [\[.*?\]]. *)
Definition match_bracket : matcher := fun s =>
  match s with
  | c :: r => if (c =? ch_lbracket)%N then option_map S (scan_close r) else None
  | [] => None
  end.

End Re.
Import Re.

(** ** [clean_proposal_text] (lines 43-48) *)

Definition clean_proposal_text (text : pystr) : pystr :=
  let text := re_sub match_stars text in
  let text := re_sub match_bracket text in
  py_strip text.

(** ** The normaliser as the specification words it

    The three steps of section 4.2, written from the prose and not from
    the regular expressions, to be compared with [clean_proposal_text]. *)

Module Spec.

(** Step 1: every run of emphasis markers goes, so no marker stays. *)
Definition strip_emphasis (s : pystr) : pystr :=
  filter (fun c => negb (c =? ch_star)%N) s.

(** The text up to the next "]" and the text after it. *)
Fixpoint next_close (s : pystr) : option (pystr * pystr) :=
  match s with
  | [] => None
  | c :: r =>
      if (c =? ch_rbracket)%N then Some ([], r)
      else match next_close r with
           | Some (mid, post) => Some (c :: mid, post)
           | None => None
           end
  end.

(** Keeps the equation when matching on a computed value. *)
Definition inspect {A : Type} (x : A) : { y : A | x = y } := exist _ x eq_refl.

(** Step 2: at a "[", the span runs to the next "]"; a span whose
    interior passes [ok] is dropped with its delimiters, and the scan goes
    on behind it. *)
Equations? strip_spans (ok : pystr -> bool) (s : pystr) : pystr
  by wf (length s) lt :=
  strip_spans ok [] := [];
  strip_spans ok (c :: r) with inspect (next_close r) := {
    | exist _ (Some (mid, post)) _ :=
        if ((c =? ch_lbracket)%N && ok mid)%bool
        then strip_spans ok post
        else c :: strip_spans ok r;
    | exist _ None _ := c :: strip_spans ok r }.
Proof.
  all: simpl; try lia.
  assert (shorter : forall t m p,
             next_close t = Some (m, p) -> length p < length t).
  { induction t as [|d t IH]; intros m p; simpl; [discriminate|].
    destruct (d =? ch_rbracket)%N; [intros [= <- <-]; lia|].
    destruct (next_close t) as [[m' p']|]; [|discriminate].
    intros [= <- <-]. specialize (IH _ _ eq_refl). lia. }
  match goal with H : next_close _ = Some _ |- _ => apply shorter in H end.
  lia.
Qed.

(** The interior of a span that lies within one line. *)
Definition one_line (mid : pystr) : bool :=
  forallb (fun c => negb (c =? ch_newline)%N) mid.

(** Step 3: trim. *)
Definition trim (s : pystr) : pystr := py_strip s.

(** The normaliser of section 4.2, every bracketed span removed. *)
Definition normalize (raw : pystr) : pystr :=
  trim (strip_spans (fun _ => true) (strip_emphasis raw)).

(** The same with step 2 kept to spans within one line. *)
Definition normalize_one_line (raw : pystr) : pystr :=
  trim (strip_spans one_line (strip_emphasis raw)).

End Spec.

(** ** The outside world: Streamlit, the OpenAI client, FPDF, the files *)

Module App.

(** The values of the input widgets (lines 32-38).  [st.number_input] with
    the integer [min_value=0] yields an [int]. *)
Inductive style := Formal | Creative.

Record form := {
  client_name : pystr;
  service : pystr;
  budget : Z;
  contact_name : pystr;
  contact_email : pystr;
  contact_phone : pystr;
  template : style
}.

(** An exception of class [Exception]; [exn_str] is [str(e)]. *)
Record exn := { exn_str : pystr }.

(** The calls made on the [FPDF] object, in the order made.  The library
    is not part of the script: the object is modelled by the calls it has
    received. *)
Inductive fpdf_call :=
| add_page
| set_left_margin (margin : Z)
| set_right_margin (margin : Z)
| set_top_margin (margin : Z)
| add_font (family fstyle fname : pystr) (uni : bool)
| set_font (family : pystr) (size : Z)
| cell (w h : Z) (txt : pystr) (ln : bool) (align : pystr)
| ln (h : Z)
| multi_cell (w h : Z) (txt : pystr) (align : pystr).

Definition FPDF := list fpdf_call.

(** What one run of the script finds around it. *)
Record world := {
  api_key : option pystr;             (* os.getenv("OPENAI_API_KEY") *)
  script_dir : pystr;                 (* os.path.dirname(__file__) *)
  cwd : pystr;                        (* os.getcwd() *)
  path_exists : pystr -> bool;        (* os.path.exists *)
  (* client.chat.completions.create(model, prompt) followed by
     response.choices[0].message.content: the text, or the exception *)
  chat_create : pystr -> pystr -> pystr + exn;
  (* an FPDF call that raises, given the calls the object has had *)
  fpdf_fault : FPDF -> fpdf_call -> option exn;
  (* the bytes FPDF makes of a document: the first one and the rest *)
  pdf_stream : FPDF -> Byte.byte * list Byte.byte;
  (* pdf.output(path) raising, for instance on a full disk *)
  output_fault : pystr -> FPDF -> option exn;
  (* open(path, "rb") or f.read() raising *)
  open_fault : pystr -> option exn;
  files : pystr -> option (list Byte.byte);   (* the files before the run *)
  premium_email : pystr               (* the text input of line 143 *)
}.

(** The files, by path. *)
Definition disk := pystr -> option (list Byte.byte).

Fixpoint pystr_eqb (a b : pystr) : bool :=
  match a, b with
  | [], [] => true
  | x :: a', y :: b' => (x =? y)%N && pystr_eqb a' b'
  | _, _ => false
  end.

Definition write_file (d : disk) (path : pystr) (data : list Byte.byte) : disk :=
  fun q => if pystr_eqb q path then Some data else d q.

(** The effects of a run that the user or the outside can observe.
    [StWidget] stands for an input widget or a button put on the page, by
    its label; the value the user gave it is in [form]. *)
Inductive event :=
| StPageConfig (page_title page_icon layout : pystr)
| StTitle (msg : pystr)
| StWidget (label : pystr)
| StWarning (msg : pystr)
| StSpinner (msg : pystr)
| ChatCreate (model prompt : pystr)
| StError (msg : pystr)
| PdfOutput (path : pystr) (pdf : FPDF)
| StSubheader (msg : pystr)
| StWrite (text : pystr)
| StDownloadButton (label : pystr) (data : list Byte.byte)
                   (file_name mime : pystr)
| StLinkButton (label url : pystr)
| StSuccess (msg : pystr).

(** How a block of the script ends: normally, with an exception of class
    [Exception], or by [st.stop()].  Streamlit's stop is a [BaseException]
    of its own, which [except Exception] does not catch. *)
Inductive result (A : Type) :=
| Done (a : A)
| Raised (e : exn)
| Stopped.
Arguments Done {A} a.
Arguments Raised {A} e.
Arguments Stopped {A}.

(** The script monad: the events so far and the way the block ended. *)
Definition Script (A : Type) : Type := list event * result A.

Definition ret {A} (a : A) : Script A := ([], Done a).

Definition bind {A B} (m : Script A) (k : A -> Script B) : Script B :=
  match m with
  | (l, Done a) => let (l', r) := k a in (l ++ l', r)
  | (l, Raised e) => (l, Raised e)
  | (l, Stopped) => (l, Stopped)
  end.

Definition emit (e : event) : Script unit := ([e], Done tt).
Definition raise {A} (e : exn) : Script A := ([], Raised e).
Definition st_stop {A} : Script A := ([], Stopped).

(** [try: m except Exception as e: h e] *)
Definition try_except {A} (m : Script A) (h : exn -> Script A) : Script A :=
  match m with
  | (l, Raised e) => let (l', r) := h e in (l ++ l', r)
  | _ => m
  end.

Definition events {A} (m : Script A) : list event := fst m.
Definition outcome {A} (m : Script A) : result A := snd m.

Declare Scope script_scope.
Delimit Scope script_scope with script.
Notation "x <- m ;; k" := (bind m (fun x => k))
  (at level 61, m at next level, right associativity) : script_scope.
Notation "m ;; k" := (bind m (fun _ => k))
  (at level 61, right associativity) : script_scope.
Local Open Scope script_scope.

(** Python's truth value of a [str]: the empty string is false. *)
Definition truthy (s : pystr) : bool :=
  match s with [] => false | _ => true end.

(** [os.path.join] on a POSIX system, for relative second parts. *)
Definition os_path_join (a b : pystr) : pystr :=
  match rev a with
  | [] => b
  | c :: _ => if (c =? 47)%N then a ++ b else a ++ 47%N :: b
  end.

(** Modelled from the spec: the serialiser behind [pdf.output], part of
    the FPDF library and absent from src/.  Section 8 of the specification
    says that assembling always produces a non-empty byte stream, so the
    stream of a document is a first byte followed by the rest; which bytes
    they are is left to the world. *)
Definition fpdf_output (w : world) (pdf : FPDF) : list Byte.byte :=
  let (b, bs) := pdf_stream w pdf in b :: bs.

(** A method call on the [FPDF] object: it raises, or the object has
    received one more call. *)
Definition fpdf_do (w : world) (pdf : FPDF) (c : fpdf_call) : Script FPDF :=
  match fpdf_fault w pdf c with
  | Some e => raise e
  | None => ret (pdf ++ [c])
  end.

(** [pdf.output(path)] (line 116): it raises, or the file at [path] now
    holds the bytes of the document. *)
Definition pdf_output (w : world) (d : disk) (pdf : FPDF) (path : pystr)
  : Script disk :=
  match output_fault w path pdf with
  | Some e => raise e
  | None => emit (PdfOutput path pdf) ;;
            ret (write_file d path (fpdf_output w pdf))
  end.

(** [open(path, "rb")] and [f.read()] (lines 124-127). *)
Definition read_file (w : world) (d : disk) (path : pystr)
  : Script (list Byte.byte) :=
  match open_fault w path with
  | Some e => raise e
  | None =>
      match d path with
      | Some data => ret data
      | None => raise {| exn_str := py "[Errno 2] No such file or directory: '"
                                    ++ path ++ py "'" |}
      end
  end.

End App.
Import App.

(** ** The script *)

Module Handler.
Local Open Scope script_scope.

Definition warning_sign : pystr := [9888; 65039]%N.

(** The prompt of lines 60-67. *)
Definition prompt (f : form) : pystr :=
  py "Create a professional business proposal from '" ++ contact_name f
  ++ py "' to '" ++ client_name f ++ py "'. "
  ++ py "The proposal should offer '" ++ service f
  ++ py "' services for a budget of $" ++ py_str_int (budget f) ++ py ". "
  ++ py "Make it clear that this proposal is from the provider (us) to the client (them). "
  ++ py "Include sections: Cover Greeting, Overview, Service Highlights, Pricing, Why Choose Us, and Contact Info. "
  ++ py "Make it polite, structured, client-focused, and at least 1.5 pages long. "
  ++ py "Avoid placeholders like [Your Name] or [Contact Info].".

(** The footer text of line 110. *)
Definition footer (f : form) : pystr :=
  py "---" ++ [ch_newline] ++ py "Prepared by: " ++ contact_name f
  ++ [ch_newline] ++ py "Email: " ++ contact_email f
  ++ [ch_newline] ++ py "Phone: " ++ contact_phone f.

Definition font_path (w : world) : pystr :=
  os_path_join (os_path_join (script_dir w) (py "fonts")) (py "DejaVuSans.ttf").

Definition pdf_path (w : world) : pystr :=
  os_path_join (cwd w) (py "proposal.pdf").

(** The test of line 54. *)
Definition missing_fields (f : form) : bool :=
  negb (truthy (client_name f)) || negb (truthy (service f))
  || (budget f <=? 0)%Z || negb (truthy (contact_name f)).

(** The body of the [try] block, lines 59-145.  The calls of lines 80-86
    only set up the fresh object in memory and are taken not to raise;
    from [add_font] on, every FPDF call, [pdf.output] and [open] can. *)
Definition generate_body (w : world) (f : form) : Script unit :=
  let prompt := prompt f in
  (* OpenAI API call *)
  emit (ChatCreate (py "gpt-4o-mini") prompt) ;;
  content <- match chat_create w (py "gpt-4o-mini") prompt with
             | inl text => ret text
             | inr e => raise e
             end ;;
  let proposal_text := clean_proposal_text content in
  (* PDF generation *)
  let pdf : FPDF := [] in
  let pdf := pdf ++ [add_page] in
  let pdf := pdf ++ [set_left_margin 20] in
  let pdf := pdf ++ [set_right_margin 20] in
  let pdf := pdf ++ [set_top_margin 15] in
  let font_path := font_path w in
  (if negb (path_exists w font_path)
   then emit (StError (warning_sign ++ py " Missing DejaVuSans.ttf! Please place it in a `fonts` folder next to proposal_app.py.")) ;;
        st_stop
   else ret tt) ;;
  pdf <- fpdf_do w pdf (add_font (py "DejaVu") [] font_path true) ;;
  pdf <- fpdf_do w pdf (set_font (py "DejaVu") 14) ;;
  (* title *)
  pdf <- fpdf_do w pdf (cell 0 10 (py "Business Proposal") true (py "C")) ;;
  pdf <- fpdf_do w pdf (ln 10) ;;
  (* proposal content, justified *)
  pdf <- fpdf_do w pdf (set_font (py "DejaVu") 12) ;;
  pdf <- fpdf_do w pdf (multi_cell 0 8 proposal_text (py "J")) ;;
  pdf <- fpdf_do w pdf (ln 5) ;;
  (* contact footer *)
  pdf <- fpdf_do w pdf (set_font (py "DejaVu") 12) ;;
  pdf <- fpdf_do w pdf (multi_cell 0 8 (footer f) (py "L")) ;;
  (* save *)
  let pdf_path := pdf_path w in
  d <- pdf_output w (files w) pdf pdf_path ;;
  (* display and download *)
  emit (StSubheader (128196%N :: py " Generated Proposal")) ;;
  emit (StWrite proposal_text) ;;
  data <- read_file w d pdf_path ;;
  emit (StDownloadButton (11015%N :: py " Download Proposal (PDF)")
          data (py "proposal.pdf") (py "application/pdf")) ;;
  (* share *)
  emit (StLinkButton (128279%N :: py " Share Proposal")
          (py "https://x.com/intent/tweet?text=Check%20out%20my%20personalized%20proposal%20for%20"
           ++ client_name f ++ py "!%20Try%20this%20app%20too!")) ;;
  (* premium access *)
  emit (StWidget (128140%N :: py " Enter your email for Unlimited Access ($19/mo)")) ;;
  let email := premium_email w in
  if truthy email
  then emit (StSuccess (9989%N :: py " Thanks! We'll contact you about premium access."))
  else ret tt.

(** The block under [if st.button("Generate Proposal")], lines 54-148. *)
Definition generate_proposal (w : world) (f : form) : Script unit :=
  if missing_fields f
  then emit (StWarning (warning_sign ++ py " Please fill all required fields before generating a proposal."))
  else
    emit (StSpinner (9203%N :: py " Generating your personalized proposal...")) ;;
    try_except (generate_body w f)
      (fun e => emit (StError (warning_sign ++ py " Error: " ++ exn_str e))).

(** The whole script for one run: the key check of lines 13-17, the page
    of lines 25-38 (title, introduction, input widgets), the button of
    line 53, and the handler when the button was clicked. *)
Definition script (w : world) (f : form) (clicked : bool) : Script unit :=
  (match api_key w with
   | Some (_ :: _) => ret tt
   | _ => emit (StError (10060%N :: py " OpenAI API key not found! Please add it to your `.env` file.")) ;;
          st_stop
   end) ;;
  emit (StPageConfig (py "AI Proposal Generator") [128221%N] (py "centered")) ;;
  emit (StTitle (128221%N :: py " AI Proposal Generator")) ;;
  emit (StWrite (py "Generate **personalized, client-ready proposals** instantly!")) ;;
  emit (StWidget (128100%N :: py " Client Name")) ;;
  emit (StWidget (128188%N :: py " Service (e.g., Cybersecurity, Web Development, SEO, etc.)")) ;;
  emit (StWidget (128176%N :: py " Budget ($)")) ;;
  emit (StWidget (128204%N :: py " Your Name / Company Name")) ;;
  emit (StWidget (128231%N :: py " Your Email")) ;;
  emit (StWidget (128222%N :: py " Your Phone Number")) ;;
  emit (StWidget (127912%N :: py " Proposal Style")) ;;
  emit (StWidget (128640%N :: py " Generate Proposal")) ;;
  if clicked then generate_proposal w f else ret tt.

(** *** Reading a run *)

(** The prompts sent to the generation service. *)
Definition generation_calls (l : list event) : list pystr :=
  flat_map (fun e => match e with ChatCreate _ p => [p] | _ => [] end) l.

(** The documents written by [pdf.output]. *)
Definition documents (l : list event) : list FPDF :=
  flat_map (fun e => match e with PdfOutput _ d => [d] | _ => [] end) l.

(** The byte streams offered for download. *)
Definition downloads (l : list event) : list (list Byte.byte) :=
  flat_map (fun e => match e with StDownloadButton _ d _ _ => [d] | _ => [] end) l.

(** The messages shown by [st.warning] and by [st.error]. *)
Definition warnings (l : list event) : list pystr :=
  flat_map (fun e => match e with StWarning m => [m] | _ => [] end) l.
Definition errors (l : list event) : list pystr :=
  flat_map (fun e => match e with StError m => [m] | _ => [] end) l.

(** The texts of the paragraph cells of a document (body, then footer). *)
Definition multi_cell_texts (d : FPDF) : list pystr :=
  flat_map (fun c => match c with multi_cell _ _ t _ => [t] | _ => [] end) d.

(** The margins set on the object so far: left, right, top; [None] where
    the script has set none and the library's default holds. *)
Definition margins : Type := option Z * option Z * option Z.

(** The texts laid out by the calls of a document, in their order, each
    with the margins set at the moment of its call. *)
Fixpoint drawn_from (m : margins) (d : FPDF) : list (pystr * margins) :=
  match d with
  | [] => []
  | c :: r =>
      match c with
      | set_left_margin x => drawn_from (Some x, snd (fst m), snd m) r
      | set_right_margin x => drawn_from (fst (fst m), Some x, snd m) r
      | set_top_margin x => drawn_from (fst (fst m), snd (fst m), Some x) r
      | cell _ _ t _ _ => (t, m) :: drawn_from m r
      | multi_cell _ _ t _ => (t, m) :: drawn_from m r
      | _ => drawn_from m r
      end
  end.
Definition drawn (d : FPDF) : list (pystr * margins) :=
  drawn_from (None, None, None) d.

(** The lines of a text, split at the newlines. *)
Fixpoint lines_from (cur : pystr) (s : pystr) : list pystr :=
  match s with
  | [] => [rev cur]
  | c :: r => if (c =? ch_newline)%N then rev cur :: lines_from [] r
              else lines_from (c :: cur) r
  end.
Definition lines (s : pystr) : list pystr := lines_from [] s.

End Handler.
Import Handler.

(** ** Notions used to state the properties *)

Module Notions.

(** A text is quiet when the bracket pattern matches at none of its
    positions. *)
Definition quiet (t : pystr) : Prop :=
  forall a b, t = a ++ b -> match_bracket b = None.

(** The first character, if there is one, is not white space. *)
Definition head_solid (s : pystr) : Prop :=
  match s with
  | [] => True
  | c :: _ => py_isspace c = false
  end.

(** The calls of lines 81-112 in one list: the document a run hands to
    [pdf.output] when it gets that far. *)
Definition laid_out (font_path proposal_text footer : pystr) : FPDF :=
  [ add_page; set_left_margin 20; set_right_margin 20; set_top_margin 15;
    add_font (py "DejaVu") [] font_path true;
    set_font (py "DejaVu") 14;
    cell 0 10 (py "Business Proposal") true (py "C");
    ln 10;
    set_font (py "DejaVu") 12;
    multi_cell 0 8 proposal_text (py "J");
    ln 5;
    set_font (py "DejaVu") 12;
    multi_cell 0 8 footer (py "L") ].

(** The texts put on the page by [st.write]. *)
Definition shown (l : list event) : list pystr :=
  flat_map (fun e => match e with StWrite t => [t] | _ => [] end) l.

Definition msg_fill_fields : pystr :=
  warning_sign ++ py " Please fill all required fields before generating a proposal.".
Definition msg_missing_font : pystr :=
  warning_sign ++ py " Missing DejaVuSans.ttf! Please place it in a `fonts` folder next to proposal_app.py.".
Definition msg_spinner : pystr :=
  9203%N :: py " Generating your personalized proposal...".
Definition model_name : pystr := py "gpt-4o-mini".

(** [a] is what is left of [b] after deleting some of its characters,
    the others keeping their order. *)
Inductive subseq : pystr -> pystr -> Prop :=
| subseq_nil : subseq [] []
| subseq_keep c a b : subseq a b -> subseq (c :: a) (c :: b)
| subseq_drop c a b : subseq a b -> subseq a (c :: b).

(** Every character is white space. *)
Definition blank (s : pystr) : bool := forallb py_isspace s.

(** The script has found a key: [not api_key] is false. *)
Definition has_key (w : world) : bool :=
  match api_key w with
  | Some (_ :: _) => true
  | _ => false
  end.

Definition msg_no_key : pystr :=
  10060%N :: py " OpenAI API key not found! Please add it to your `.env` file.".



(** The message made of a caught exception (line 148). *)
Definition msg_error (e : exn) : pystr :=
  warning_sign ++ py " Error: " ++ exn_str e.


End Notions.
Import Notions.

(** ** Sample inputs *)

Module Demo.

Definition two_lines : pystr := py "[Your" ++ [ch_newline] ++ py "Name]".

Definition form_ok : form :=
  {| client_name := py "Acme"; service := py "SEO"; budget := 500;
     contact_name := py "Bob"; contact_email := py "bob@x.io";
     contact_phone := py "555"; template := Formal |}.

Definition form_no_client : form :=
  {| client_name := []; service := py "SEO"; budget := 500;
     contact_name := py "Bob"; contact_email := py "bob@x.io";
     contact_phone := py "555"; template := Formal |}.

Definition form_no_email : form :=
  {| client_name := py "Acme"; service := py "SEO"; budget := 500;
     contact_name := py "Bob"; contact_email := [];
     contact_phone := []; template := Creative |}.

Definition form_other_client : form :=
  {| client_name := py "Globex"; service := py "Audit"; budget := 90;
     contact_name := py "Bob"; contact_email := py "bob@x.io";
     contact_phone := py "555"; template := Creative |}.

Definition world_ok : world :=
  {| api_key := Some (py "sk-test"); script_dir := py "/app";
     cwd := py "/tmp"; path_exists := fun _ => true;
     chat_create := fun _ _ => inl (py "**Hello** [Name], welcome!");
     fpdf_fault := fun _ _ => None; pdf_stream := fun _ => (Byte.x25, []);
     output_fault := fun _ _ => None; open_fault := fun _ => None;
     files := fun _ => None; premium_email := [] |}.

Definition world_no_font : world :=
  {| api_key := Some (py "sk-test"); script_dir := py "/app";
     cwd := py "/tmp"; path_exists := fun _ => false;
     chat_create := fun _ _ => inl (py "**Hello** [Name], welcome!");
     fpdf_fault := fun _ _ => None; pdf_stream := fun _ => (Byte.x25, []);
     output_fault := fun _ _ => None; open_fault := fun _ => None;
     files := fun _ => None; premium_email := [] |}.

Definition world_down : world :=
  {| api_key := Some (py "sk-test"); script_dir := py "/app";
     cwd := py "/tmp"; path_exists := fun _ => true;
     chat_create := fun _ _ => inr {| exn_str := py "Connection error." |};
     fpdf_fault := fun _ _ => None; pdf_stream := fun _ => (Byte.x25, []);
     output_fault := fun _ _ => None; open_fault := fun _ => None;
     files := fun _ => None; premium_email := [] |}.

Definition world_other : world :=
  {| api_key := Some (py "sk-other"); script_dir := py "/app";
     cwd := py "/home/u"; path_exists := fun _ => true;
     chat_create := fun _ _ => inl (py "Hello [You], *welcome*! ");
     fpdf_fault := fun _ _ => None; pdf_stream := fun _ => (Byte.x25, []);
     output_fault := fun _ _ => None; open_fault := fun _ => None;
     files := fun _ => None; premium_email := py "me@x.io" |}.

Definition world_no_key : world :=
  {| api_key := None; script_dir := py "/app";
     cwd := py "/tmp"; path_exists := fun _ => true;
     chat_create := fun _ _ => inl (py "**Hello** [Name], welcome!");
     fpdf_fault := fun _ _ => None; pdf_stream := fun _ => (Byte.x25, []);
     output_fault := fun _ _ => None; open_fault := fun _ => None;
     files := fun _ => None; premium_email := [] |}.



End Demo.

(** * Properties *)

(** ** Runs on the sample inputs *)

Example clean_two_lines :
  clean_proposal_text Demo.two_lines = Demo.two_lines.
Proof. reflexivity. Qed.

Example spec_two_lines : Spec.normalize Demo.two_lines = [].
Proof. reflexivity. Qed.

Example spec_one_line_two_lines :
  Spec.normalize_one_line Demo.two_lines = Demo.two_lines.
Proof. reflexivity. Qed.

Example str_of_budget : py_str_int 500 = py "500" /\ py_str_int 0 = py "0".
Proof. split; reflexivity. Qed.

Example clean_star_in_span :
  clean_proposal_text (py "[a*" ++ [ch_newline] ++ py "b]")
  = py "[a" ++ [ch_newline] ++ py "b]".
Proof. reflexivity. Qed.

Example run_ok_documents :
  length (documents (events (generate_proposal Demo.world_ok Demo.form_ok))) = 1.
Proof. reflexivity. Qed.

Example run_no_font :
  outcome (generate_proposal Demo.world_no_font Demo.form_ok) = Stopped.
Proof. reflexivity. Qed.

(** ** The substitution scan *)

Section ReSub.

Variable m : matcher.

Lemma re_sub_from_nil k : re_sub_from m k [] = [].
Proof. destruct k; reflexivity. Qed.

(** Dropping the rest of a match is the same as starting behind it. *)
Lemma re_sub_from_skipn k s :
  re_sub_from m k s = re_sub_from m 0 (skipn k s).
Proof.
  revert k. induction s as [|c r IH]; intros [|k]; try reflexivity.
  simpl. apply IH.
Qed.

(** The scan at a position, by what the pattern does there. *)
Lemma re_sub_match c r k :
  m (c :: r) = Some (S k) ->
  re_sub m (c :: r) = re_sub m (skipn k r).
Proof.
  intros H. unfold re_sub. simpl. rewrite H. apply re_sub_from_skipn.
Qed.

Lemma re_sub_keep c r :
  (forall k, m (c :: r) <> Some (S k)) ->
  re_sub m (c :: r) = c :: re_sub m r.
Proof.
  intros H. unfold re_sub. simpl.
  destruct (m (c :: r)) as [[|k]|]; try reflexivity.
  exfalso. exact (H k eq_refl).
Qed.

(** The scan only deletes: what it leaves was there before. *)
Lemma re_sub_from_In k s x : In x (re_sub_from m k s) -> In x s.
Proof.
  revert k. induction s as [|c r IH]; intros k; simpl; [tauto|].
  destruct k as [|k].
  - destruct (m (c :: r)) as [[|j]|]; simpl; intros H;
      try (destruct H as [H|H]; [now left | right; eauto]); right; eauto.
  - intros H. right. eauto.
Qed.

End ReSub.

(** ** Step 1: the emphasis markers *)

Lemma count_stars_head c r k :
  S k <= count_stars (c :: r) -> (c =? ch_star)%N = true /\ k <= count_stars r.
Proof.
  simpl. destruct (c =? ch_star)%N; intros H; [split; [reflexivity|lia]|lia].
Qed.

Lemma re_sub_from_stars s : forall k,
  k <= count_stars s ->
  re_sub_from match_stars k s = Spec.strip_emphasis s.
Proof.
  induction s as [|c r IH]; intros k Hk.
  - apply re_sub_from_nil.
  - destruct k as [|k].
    + simpl. unfold match_stars. simpl.
      destruct (c =? ch_star)%N eqn:E; simpl.
      * apply IH. lia.
      * f_equal. apply IH. lia.
    + apply count_stars_head in Hk. destruct Hk as [E Hk].
      simpl. rewrite E. simpl. apply IH, Hk.
Qed.

Lemma re_sub_stars s : re_sub match_stars s = Spec.strip_emphasis s.
Proof. apply re_sub_from_stars. lia. Qed.

Lemma strip_emphasis_no_star s : ~ In ch_star (Spec.strip_emphasis s).
Proof.
  unfold Spec.strip_emphasis. rewrite filter_In. intros [_ H]. discriminate H.
Qed.

Lemma strip_emphasis_fixed s :
  ~ In ch_star s -> Spec.strip_emphasis s = s.
Proof.
  unfold Spec.strip_emphasis. induction s as [|c r IH]; intros H; [reflexivity|].
  simpl. destruct (c =? ch_star)%N eqn:E.
  - apply N.eqb_eq in E. subst c. exfalso. apply H. now left.
  - simpl. f_equal. apply IH. intros Hin. apply H. now right.
Qed.

(** ** Step 2: the bracketed spans *)

(** The regular expression and the prose agree on where a span ends, as
    long as the span stays on one line. *)
Lemma scan_close_next_close r :
  scan_close r =
  match Spec.next_close r with
  | Some (mid, _) => if Spec.one_line mid then Some (S (length mid)) else None
  | None => None
  end.
Proof.
  induction r as [|c r IH]; simpl; [reflexivity|].
  destruct (c =? ch_rbracket)%N eqn:Er; [reflexivity|].
  destruct (c =? ch_newline)%N eqn:En; simpl.
  - destruct (Spec.next_close r) as [[mid post]|]; simpl; [|reflexivity].
    rewrite En. reflexivity.
  - rewrite IH. destruct (Spec.next_close r) as [[mid post]|]; simpl; [|reflexivity].
    rewrite En. simpl. destruct (Spec.one_line mid); reflexivity.
Qed.

Lemma next_close_split r mid post :
  Spec.next_close r = Some (mid, post) ->
  r = mid ++ ch_rbracket :: post /\ ~ In ch_rbracket mid.
Proof.
  revert mid post. induction r as [|c r IH]; intros mid post; simpl; [discriminate|].
  destruct (c =? ch_rbracket)%N eqn:Er.
  - intros [= <- <-]. apply N.eqb_eq in Er. subst c. split; [reflexivity|tauto].
  - destruct (Spec.next_close r) as [[m1 p1]|]; [|discriminate].
    intros [= <- <-]. destruct (IH _ _ eq_refl) as [-> Hn]. split; [reflexivity|].
    simpl. intros [H|H]; [|tauto]. subst c. discriminate Er.
Qed.

Lemma skipn_past (a : pystr) x b : skipn (S (length a)) (a ++ x :: b) = b.
Proof. induction a as [|y a IH]; [reflexivity|apply IH]. Qed.

Lemma re_sub_bracket s :
  re_sub match_bracket s = Spec.strip_spans Spec.one_line s.
Proof.
  funelim (Spec.strip_spans Spec.one_line s).
  - reflexivity.
  - match goal with E : Spec.next_close _ = Some _ |- _ => rename E into Hnc end.
    pose proof (scan_close_next_close r) as Hs. rewrite Hnc in Hs.
    destruct (next_close_split _ _ _ Hnc) as [Hr _].
    destruct (c =? ch_lbracket)%N eqn:El; simpl.
    + destruct (Spec.one_line mid) eqn:Eo.
      * rewrite (re_sub_match match_bracket c r (S (length mid))).
        -- rewrite Hr at 1. rewrite skipn_past. assumption.
        -- simpl. rewrite El, Hs. reflexivity.
      * rewrite re_sub_keep.
        -- f_equal. assumption.
        -- intros k. simpl. rewrite El, Hs. discriminate.
    + rewrite re_sub_keep.
      * f_equal. assumption.
      * intros k. simpl. rewrite El. discriminate.
  - match goal with E : Spec.next_close _ = None |- _ => rename E into Hnc end.
    pose proof (scan_close_next_close r) as Hs. rewrite Hnc in Hs.
    rewrite re_sub_keep.
    + f_equal. assumption.
    + intros k. simpl. rewrite Hs. destruct (c =? ch_lbracket)%N; discriminate.
Qed.

Lemma match_bracket_positive s : match_bracket s <> Some 0.
Proof.
  destruct s as [|c r]; simpl; [discriminate|].
  destruct (c =? ch_lbracket)%N; [|discriminate].
  destruct (scan_close r); discriminate.
Qed.

Lemma quiet_nil : quiet [].
Proof.
  intros a b H. symmetry in H. apply app_eq_nil in H. destruct H as [_ ->].
  reflexivity.
Qed.

Lemma quiet_cons c t :
  match_bracket (c :: t) = None -> quiet t -> quiet (c :: t).
Proof.
  intros Hc Ht [|x a] b H; simpl in H.
  - subst b. exact Hc.
  - injection H as _ H. exact (Ht _ _ H).
Qed.

Lemma quiet_suffix a b : quiet (a ++ b) -> quiet b.
Proof.
  intros H x y E. apply (H (a ++ x) y). rewrite E. apply app_assoc.
Qed.

Lemma scan_close_app_none x y :
  scan_close (x ++ y) = None -> scan_close x = None.
Proof.
  induction x as [|c x IH]; simpl; [reflexivity|].
  destruct (c =? ch_rbracket)%N; [discriminate|].
  destruct (c =? ch_newline)%N; [reflexivity|].
  destruct (scan_close (x ++ y)); [discriminate|].
  intros _. rewrite IH; reflexivity.
Qed.

Lemma match_bracket_app_none x y :
  match_bracket (x ++ y) = None -> match_bracket x = None.
Proof.
  destruct x as [|c x]; simpl; [reflexivity|].
  destruct (c =? ch_lbracket)%N; [|reflexivity].
  destruct (scan_close (x ++ y)) eqn:E; [discriminate|].
  intros _. rewrite (scan_close_app_none _ _ E). reflexivity.
Qed.

Lemma quiet_prefix a b : quiet (a ++ b) -> quiet a.
Proof.
  intros H x y E. apply match_bracket_app_none with (y := b).
  apply (H x (y ++ b)). rewrite E. symmetry. apply app_assoc.
Qed.

(** An opening bracket that finds no partner before the scan finds none
    after it either. *)
Lemma scan_close_re_sub t :
  scan_close t = None -> scan_close (re_sub match_bracket t) = None.
Proof.
  induction t as [|c r IH]; [reflexivity|].
  intros H. simpl in H.
  destruct (c =? ch_rbracket)%N eqn:Er; [discriminate|].
  destruct (c =? ch_newline)%N eqn:En.
  - rewrite re_sub_keep.
    + simpl. rewrite Er, En. reflexivity.
    + intros k. simpl. destruct (c =? ch_lbracket)%N eqn:El; [|discriminate].
      apply N.eqb_eq in El. subst c. discriminate En.
  - destruct (scan_close r) eqn:Es; [discriminate|].
    rewrite re_sub_keep.
    + simpl. rewrite Er, En, (IH eq_refl). reflexivity.
    + intros k. simpl. rewrite Es. destruct (c =? ch_lbracket)%N; discriminate.
Qed.

Lemma re_sub_from_quiet u : forall k, quiet (re_sub_from match_bracket k u).
Proof.
  induction u as [|c r IH]; intros k.
  - rewrite re_sub_from_nil. apply quiet_nil.
  - destruct k as [|k]; simpl; [|apply IH].
    destruct (c =? ch_lbracket)%N eqn:El.
    + destruct (scan_close r) eqn:Es; simpl; [apply IH|].
      apply quiet_cons; [|apply IH].
      simpl. rewrite El. fold (re_sub match_bracket r).
      rewrite (scan_close_re_sub _ Es). reflexivity.
    + apply quiet_cons; [|apply IH]. simpl. rewrite El. reflexivity.
Qed.

Lemma re_sub_quiet_fixed t : quiet t -> re_sub match_bracket t = t.
Proof.
  induction t as [|c r IH]; intros H; [reflexivity|].
  rewrite re_sub_keep.
  - f_equal. apply IH. apply (quiet_suffix [c] r H).
  - intros k. rewrite (H [] (c :: r) eq_refl). discriminate.
Qed.

(** ** Step 3: trimming *)

Lemma dropwhile_suffix p s : exists a, s = a ++ dropwhile p s.
Proof.
  induction s as [|c r [a IH]]; simpl.
  - exists []. reflexivity.
  - destruct (p c).
    + exists (c :: a). simpl. f_equal. exact IH.
    + exists []. reflexivity.
Qed.

Lemma py_rstrip_prefix s : exists b, s = py_rstrip s ++ b.
Proof.
  unfold py_rstrip. destruct (dropwhile_suffix py_isspace (rev s)) as [a H].
  exists (rev a). rewrite <- rev_app_distr, <- H. symmetry. apply rev_involutive.
Qed.

Lemma dropwhile_head_solid s : head_solid (dropwhile py_isspace s).
Proof.
  induction s as [|c r IH]; simpl; [exact I|].
  destruct (py_isspace c) eqn:E; [exact IH|exact E].
Qed.

Lemma dropwhile_fixed s : head_solid s -> dropwhile py_isspace s = s.
Proof.
  destruct s as [|c r]; simpl; [reflexivity|]. intros ->. reflexivity.
Qed.

Lemma head_solid_prefix a b : head_solid (a ++ b) -> head_solid a.
Proof. destruct a; simpl; tauto. Qed.

Lemma py_strip_idempotent s : py_strip (py_strip s) = py_strip s.
Proof.
  unfold py_strip, py_lstrip.
  set (u := dropwhile py_isspace s).
  assert (Hu : head_solid u) by apply dropwhile_head_solid.
  destruct (py_rstrip_prefix u) as [b Hb].
  assert (Hv : head_solid (py_rstrip u)).
  { apply head_solid_prefix with (b := b). rewrite <- Hb. exact Hu. }
  rewrite (dropwhile_fixed _ Hv).
  unfold py_rstrip at 1. unfold py_rstrip at 1. rewrite rev_involutive.
  rewrite (dropwhile_fixed (dropwhile py_isspace (rev u))).
  - reflexivity.
  - apply dropwhile_head_solid.
Qed.

Lemma py_strip_In s x : In x (py_strip s) -> In x s.
Proof.
  unfold py_strip, py_lstrip. intros H.
  destruct (py_rstrip_prefix (dropwhile py_isspace s)) as [b Hb].
  destruct (dropwhile_suffix py_isspace s) as [a Ha].
  rewrite Ha, Hb. apply in_or_app. right. apply in_or_app. left. exact H.
Qed.

Lemma py_strip_quiet t : quiet t -> quiet (py_strip t).
Proof.
  unfold py_strip, py_lstrip. intros H.
  destruct (py_rstrip_prefix (dropwhile py_isspace t)) as [b Hb].
  destruct (dropwhile_suffix py_isspace t) as [a Ha].
  apply quiet_prefix with (b := b). rewrite <- Hb.
  apply quiet_suffix with (a := a). rewrite <- Ha. exact H.
Qed.

Lemma clean_no_star x : ~ In ch_star (clean_proposal_text x).
Proof.
  unfold clean_proposal_text. intros H.
  apply py_strip_In in H. apply re_sub_from_In in H.
  rewrite re_sub_stars in H. exact (strip_emphasis_no_star _ H).
Qed.

Lemma clean_quiet x : quiet (clean_proposal_text x).
Proof. apply py_strip_quiet, re_sub_from_quiet. Qed.

(** ** Spans and line ends *)

(** What the bracket pattern matches: a "[", an interior on one line
    without "]", and the "]". *)
Lemma match_bracket_shape s n :
  match_bracket s = Some n ->
  exists mid post,
    s = ch_lbracket :: mid ++ ch_rbracket :: post /\ n = length mid + 2
    /\ ~ In ch_newline mid /\ ~ In ch_rbracket mid.
Proof.
  destruct s as [|c r]; simpl; [discriminate|].
  destruct (c =? ch_lbracket)%N eqn:El; [|discriminate].
  apply N.eqb_eq in El. subst c.
  rewrite scan_close_next_close.
  destruct (Spec.next_close r) as [[mid post]|] eqn:Hnc; [|discriminate].
  destruct (Spec.one_line mid) eqn:Ho; [|discriminate].
  intros [= <-]. destruct (next_close_split _ _ _ Hnc) as [-> Hrb].
  exists mid, post. repeat split; [lia| |exact Hrb].
  intros Hin. unfold Spec.one_line in Ho. rewrite forallb_forall in Ho.
  specialize (Ho _ Hin). discriminate Ho.
Qed.

Lemma scan_close_le r j : scan_close r = Some j -> j <= length r.
Proof.
  revert j. induction r as [|c r IH]; intros j; simpl; [discriminate|].
  destruct (c =? ch_rbracket)%N; [intros [= <-]; lia|].
  destruct (c =? ch_newline)%N; [discriminate|].
  destruct (scan_close r) as [i|]; [|discriminate].
  intros [= <-]. specialize (IH _ eq_refl). lia.
Qed.

(** A newline ends the search for the closing bracket. *)
Lemma scan_close_newline a b :
  scan_close (a ++ ch_newline :: b) = scan_close a.
Proof.
  induction a as [|c a IH]; simpl; [reflexivity|].
  rewrite IH. reflexivity.
Qed.

Lemma match_bracket_newline a b :
  a <> [] -> match_bracket (a ++ ch_newline :: b) = match_bracket a.
Proof.
  destruct a as [|c a]; [congruence|]. intros _. simpl.
  rewrite scan_close_newline. reflexivity.
Qed.

(** The scan works line by line. *)
Lemma re_sub_from_newline a b : forall k,
  k <= length a ->
  re_sub_from match_bracket k (a ++ ch_newline :: b)
  = re_sub_from match_bracket k a ++ ch_newline :: re_sub match_bracket b.
Proof.
  induction a as [|c a IH]; intros k Hk.
  - assert (k = 0) by (simpl in Hk; lia). subst k. reflexivity.
  - destruct k as [|k].
    + change ((c :: a) ++ ch_newline :: b) with (c :: (a ++ ch_newline :: b)).
      cbn [re_sub_from].
      change (c :: (a ++ ch_newline :: b)) with ((c :: a) ++ ch_newline :: b).
      rewrite match_bracket_newline by discriminate.
      destruct (match_bracket (c :: a)) as [[|j]|] eqn:Em.
      * simpl. f_equal. apply IH. lia.
      * apply IH. simpl in Em.
        destruct (c =? ch_lbracket)%N; [|discriminate].
        destruct (scan_close a) as [i|] eqn:Es; [|discriminate].
        injection Em as <-. apply (scan_close_le _ _ Es).
      * simpl. f_equal. apply IH. lia.
    + simpl. apply IH. simpl in Hk. lia.
Qed.

Lemma re_sub_newline a b :
  re_sub match_bracket (a ++ ch_newline :: b)
  = re_sub match_bracket a ++ ch_newline :: re_sub match_bracket b.
Proof. apply re_sub_from_newline. lia. Qed.

(** Where no bracket opens, nothing is removed. *)
Lemma re_sub_no_open a b :
  ~ In ch_lbracket a ->
  re_sub match_bracket (a ++ b) = a ++ re_sub match_bracket b.
Proof.
  induction a as [|c a IH]; intros H; [reflexivity|].
  simpl. rewrite re_sub_keep.
  - f_equal. apply IH. intros Hin. apply H. now right.
  - intros k. simpl. destruct (c =? ch_lbracket)%N eqn:El; [|discriminate].
    apply N.eqb_eq in El. subst c. exfalso. apply H. now left.
Qed.

Lemma scan_close_no_close t : ~ In ch_rbracket t -> scan_close t = None.
Proof.
  induction t as [|c t IH]; intros H; simpl; [reflexivity|].
  destruct (c =? ch_rbracket)%N eqn:Er.
  - apply N.eqb_eq in Er. subst c. exfalso. apply H. now left.
  - destruct (c =? ch_newline)%N; [reflexivity|].
    rewrite IH; [reflexivity|]. intros Hin. apply H. now right.
Qed.

Lemma no_close_quiet t : ~ In ch_rbracket t -> quiet t.
Proof.
  intros H a [|c r] E; [reflexivity|]. simpl.
  destruct (c =? ch_lbracket)%N; [|reflexivity].
  rewrite scan_close_no_close; [reflexivity|].
  intros Hin. apply H. rewrite E. apply in_or_app. right. now right.
Qed.

(** A match that starts before an unclosed bracket ends before it. *)
Lemma scan_close_before p t j :
  ~ In ch_rbracket t ->
  scan_close (p ++ ch_lbracket :: t) = Some j -> j <= length p.
Proof.
  intros Ht. revert j. induction p as [|c p IH]; intros j; simpl.
  - rewrite (scan_close_no_close _ Ht). discriminate.
  - destruct (c =? ch_rbracket)%N; [intros [= <-]; lia|].
    destruct (c =? ch_newline)%N; [discriminate|].
    destruct (scan_close (p ++ ch_lbracket :: t)) as [i|]; [|discriminate].
    intros [= <-]. specialize (IH _ eq_refl). lia.
Qed.

Lemma re_sub_from_unclosed p t : forall k,
  ~ In ch_rbracket t -> k <= length p ->
  exists x,
    re_sub_from match_bracket k (p ++ ch_lbracket :: t) = x ++ ch_lbracket :: t.
Proof.
  induction p as [|c p IH]; intros k Ht Hk.
  - assert (k = 0) by (simpl in Hk; lia). subst k. exists [].
    change (re_sub match_bracket (ch_lbracket :: t) = ch_lbracket :: t).
    apply re_sub_quiet_fixed. apply quiet_cons.
    + simpl. rewrite (scan_close_no_close _ Ht). reflexivity.
    + apply no_close_quiet, Ht.
  - destruct k as [|k].
    + change ((c :: p) ++ ch_lbracket :: t) with (c :: (p ++ ch_lbracket :: t)).
      cbn [re_sub_from].
      destruct (match_bracket (c :: p ++ ch_lbracket :: t)) as [[|j]|] eqn:Em.
      * destruct (IH 0 Ht) as [x Hx]; [lia|]. exists (c :: x).
        simpl. f_equal. exact Hx.
      * apply IH; [exact Ht|]. simpl in Em.
        destruct (c =? ch_lbracket)%N; [|discriminate].
        destruct (scan_close (p ++ ch_lbracket :: t)) as [i|] eqn:Es; [|discriminate].
        injection Em as <-. apply (scan_close_before _ _ _ Ht Es).
      * destruct (IH 0 Ht) as [x Hx]; [lia|]. exists (c :: x).
        simpl. f_equal. exact Hx.
    + simpl. apply IH; [exact Ht|]. simpl in Hk. lia.
Qed.

(** Trimming does not reach into a piece that starts and ends with
    characters other than white space. *)
Lemma dropwhile_app_solid a y :
  y <> [] -> head_solid y ->
  exists a', dropwhile py_isspace (a ++ y) = a' ++ y.
Proof.
  intros Hy Hs. induction a as [|c a [a' IH]]; simpl.
  - exists []. apply dropwhile_fixed, Hs.
  - destruct (py_isspace c).
    + exists a'. exact IH.
    + exists (c :: a). reflexivity.
Qed.

Lemma py_strip_keeps a x b :
  x <> [] -> head_solid x -> head_solid (rev x) ->
  exists a' b', py_strip (a ++ x ++ b) = a' ++ x ++ b'.
Proof.
  intros Hx Hh Hl. unfold py_strip, py_lstrip, py_rstrip.
  destruct (dropwhile_app_solid a (x ++ b)) as [a' Ha].
  { destruct x; [congruence|discriminate]. }
  { destruct x; [congruence|exact Hh]. }
  rewrite Ha. rewrite !rev_app_distr, <- app_assoc.
  destruct (dropwhile_app_solid (rev b) (rev x ++ rev a')) as [b' Hb].
  { destruct (rev x) eqn:E; [|discriminate].
    apply (f_equal (@rev char)) in E. rewrite rev_involutive in E.
    simpl in E. congruence. }
  { destruct (rev x) eqn:E; [|exact Hl].
    apply (f_equal (@rev char)) in E. rewrite rev_involutive in E.
    simpl in E. congruence. }
  rewrite Hb. exists a', (rev b').
  rewrite !rev_app_distr, !rev_involutive, <- app_assoc. reflexivity.
Qed.

Lemma strip_emphasis_app a b :
  Spec.strip_emphasis (a ++ b) = Spec.strip_emphasis a ++ Spec.strip_emphasis b.
Proof. apply filter_app. Qed.

Lemma strip_emphasis_In x s : In x (Spec.strip_emphasis s) -> In x s.
Proof. unfold Spec.strip_emphasis. rewrite filter_In. tauto. Qed.

Lemma strip_emphasis_keep c r :
  (c =? ch_star)%N = false ->
  Spec.strip_emphasis (c :: r) = c :: Spec.strip_emphasis r.
Proof. intros H. unfold Spec.strip_emphasis. simpl. rewrite H. reflexivity. Qed.

Ltac not_in_literal := simpl; intuition discriminate.

(** ** The normaliser *)

(** C1 (as amended).  For every text the function does three things in
    this order and nothing else: it deletes every emphasis marker (so every
    run of them), then deletes, scanning from the left, every span from a
    "[" to the next "]" whose interior has no newline, delimiters included,
    then trims the white space at both ends. *)
Theorem clean_is_one_line_normalize (text : pystr) :
  clean_proposal_text text
  = Spec.trim (Spec.strip_spans Spec.one_line (Spec.strip_emphasis text)).
Proof.
  unfold clean_proposal_text, Spec.trim.
  rewrite re_sub_stars, re_sub_bracket. reflexivity.
Qed.

(** C1, as the specification states it, fails: a span that runs over a
    line end is a span from "[" to the next "]", and the function keeps
    it. *)
Lemma clean_differs_from_normalize :
  clean_proposal_text Demo.two_lines <> Spec.normalize Demo.two_lines.
Proof. vm_compute. discriminate. Qed.

(** C2.  Cleaning a cleaned text changes nothing. *)
Theorem clean_idempotent (x : pystr) :
  clean_proposal_text (clean_proposal_text x) = clean_proposal_text x.
Proof.
  unfold clean_proposal_text at 1.
  rewrite re_sub_stars, (strip_emphasis_fixed _ (clean_no_star x)).
  rewrite (re_sub_quiet_fixed _ (clean_quiet x)).
  unfold clean_proposal_text. apply py_strip_idempotent.
Qed.

(** C7.  The two sample texts of the specification. *)
Theorem clean_samples :
  clean_proposal_text (py "**Hello** [Name], welcome!") = py "Hello , welcome!"
  /\ clean_proposal_text [] = [].
Proof. split; reflexivity. Qed.

(** C9 (as amended).  The bracket pattern does not match a span whose
    interior holds a newline, and when no "[" follows that newline inside
    the span, the cleaned text still holds the span, both delimiters
    included, with only the emphasis markers taken out of it. *)
Theorem span_over_lines_kept (pre m1 m2 post : pystr) :
  ~ In ch_rbracket m1 -> ~ In ch_rbracket m2 -> ~ In ch_lbracket m2 ->
  match_bracket (ch_lbracket :: (m1 ++ ch_newline :: m2) ++ ch_rbracket :: post)
  = None
  /\ infix (ch_lbracket :: Spec.strip_emphasis (m1 ++ ch_newline :: m2)
              ++ [ch_rbracket])
       (clean_proposal_text
          (pre ++ ch_lbracket :: (m1 ++ ch_newline :: m2) ++ ch_rbracket :: post)).
Proof.
  intros H1 H2 H3. split.
  - simpl. rewrite <- app_assoc. simpl. rewrite scan_close_newline.
    rewrite (scan_close_no_close _ H1). reflexivity.
  - unfold clean_proposal_text. rewrite re_sub_stars.
    rewrite !strip_emphasis_app.
    rewrite (strip_emphasis_keep ch_lbracket) by reflexivity.
    rewrite !strip_emphasis_app.
    rewrite (strip_emphasis_keep ch_newline), (strip_emphasis_keep ch_rbracket)
      by reflexivity.
    set (P := Spec.strip_emphasis pre). set (Q := Spec.strip_emphasis post).
    set (M1 := Spec.strip_emphasis m1). set (M2 := Spec.strip_emphasis m2).
    assert (HM1 : ~ In ch_rbracket M1)
      by (intros H; apply H1; exact (strip_emphasis_In _ _ H)).
    assert (HM2 : ~ In ch_lbracket (M2 ++ [ch_rbracket])).
    { intros H. apply in_app_or in H. destruct H as [H|H].
      - apply H3. exact (strip_emphasis_In _ _ H).
      - simpl in H. intuition discriminate. }
    replace (P ++ ch_lbracket :: (M1 ++ ch_newline :: M2) ++ ch_rbracket :: Q)
      with ((P ++ ch_lbracket :: M1) ++ ch_newline :: (M2 ++ [ch_rbracket]) ++ Q)
      by (repeat (rewrite <- app_assoc; simpl); reflexivity).
    rewrite re_sub_newline, (re_sub_no_open _ Q HM2).
    destruct (re_sub_from_unclosed P M1 0 HM1) as [x Hx]; [lia|].
    unfold re_sub at 1. rewrite Hx.
    replace ((x ++ ch_lbracket :: M1) ++ ch_newline
               :: (M2 ++ [ch_rbracket]) ++ re_sub match_bracket Q)
      with (x ++ (ch_lbracket :: (M1 ++ ch_newline :: M2) ++ [ch_rbracket])
              ++ re_sub match_bracket Q)
      by (repeat (rewrite <- app_assoc; simpl); reflexivity).
    apply py_strip_keeps.
    + discriminate.
    + reflexivity.
    + simpl. rewrite rev_app_distr. reflexivity.
Qed.

Lemma span_over_lines_kept_witness :
  infix (py "[Your" ++ [ch_newline] ++ py "Name]")
    (clean_proposal_text
       (py "Dear **" ++ py "[Your" ++ [ch_newline] ++ py "Name]" ++ py "**, hi ")).
Proof.
  apply (span_over_lines_kept (py "Dear **") (py "Your") (py "Name") (py "**, hi "));
    not_in_literal.
Defined.

(** C9, as stated, fails: in "[a\n[b]" the span from the first "[" to
    the next "]" holds a newline, yet the function removes the piece "[b]"
    and with it the closing delimiter of the span. *)
Lemma span_over_lines_lost :
  let mid := py "a" ++ [ch_newline] ++ py "[b" in
  In ch_newline mid /\ ~ In ch_rbracket mid
  /\ clean_proposal_text (ch_lbracket :: mid ++ [ch_rbracket]) = py "[a"
  /\ ~ infix (ch_lbracket :: mid ++ [ch_rbracket])
         (clean_proposal_text (ch_lbracket :: mid ++ [ch_rbracket])).
Proof.
  cbv zeta. split; [|split; [|split]].
  - simpl. tauto.
  - not_in_literal.
  - reflexivity.
  - intros [a [b H]]. apply (f_equal (@length N)) in H.
    rewrite !length_app in H.
    change (2 = length a + (6 + length b)) in H. lia.
Qed.

(** ** Runs of the handler *)

Lemma pystr_eqb_refl p : pystr_eqb p p = true.
Proof. induction p as [|c p IH]; simpl; [reflexivity|]. rewrite N.eqb_refl. exact IH. Qed.

Lemma read_after_write w d path data :
  open_fault w path = None ->
  read_file w (write_file d path data) path = ret data.
Proof.
  intros H. unfold read_file, write_file. rewrite H, pystr_eqb_refl. reflexivity.
Qed.


Ltac run_step :=
  cbn [bind emit ret raise st_stop try_except negb app fpdf_do pdf_output
       read_file write_file fst snd].

Ltac fpdf_step :=
  match goal with
  | |- context [fpdf_do ?w ?p ?c] =>
      let E := fresh "Hfault" in
      change (fpdf_do w p c)
        with (match fpdf_fault w p c with
              | Some e => @raise FPDF e
              | None => ret (p ++ [c])
              end);
      destruct (fpdf_fault w p c) eqn:E; run_step
  end.

Section Runs.

Variable w : world.
Variable f : form.

Lemma run_missing_fields :
  missing_fields f = true ->
  generate_proposal w f = ([StWarning msg_fill_fields], Done tt).
Proof. intros H. unfold generate_proposal. rewrite H. reflexivity. Qed.

Lemma run_service_error e :
  missing_fields f = false ->
  chat_create w model_name (prompt f) = inr e ->
  generate_proposal w f
  = ([StSpinner msg_spinner; ChatCreate model_name (prompt f);
      StError (warning_sign ++ py " Error: " ++ exn_str e)], Done tt).
Proof.
  intros Hv Hg. unfold generate_proposal, generate_body. cbv zeta.
  fold model_name. rewrite Hv, Hg. reflexivity.
Qed.

Lemma run_missing_font text :
  missing_fields f = false ->
  chat_create w model_name (prompt f) = inl text ->
  path_exists w (font_path w) = false ->
  generate_proposal w f
  = ([StSpinner msg_spinner; ChatCreate model_name (prompt f);
      StError msg_missing_font], Stopped).
Proof.
  intros Hv Hg Hf. unfold generate_proposal, generate_body. cbv zeta.
  fold model_name. rewrite Hv, Hg, Hf. reflexivity.
Qed.

(** A valid request, a text from the service and the font in place: the
    run goes on to the FPDF calls, and ends in one of three ways. *)
Lemma run_font_present text :
  missing_fields f = false ->
  chat_create w model_name (prompt f) = inl text ->
  path_exists w (font_path w) = true ->
  (* an FPDF call or [pdf.output] raised: nothing was written *)
  (exists e,
      ((exists p c, fpdf_fault w p c = Some e)
       \/ output_fault w (pdf_path w)
            (laid_out (font_path w) (clean_proposal_text text) (footer f))
          = Some e)
      /\ generate_proposal w f
         = ([StSpinner msg_spinner; ChatCreate model_name (prompt f);
             StError (msg_error e)], Done tt))
  (* the file was written, reading it back raised *)
  \/ (exists e,
         open_fault w (pdf_path w) = Some e
         /\ output_fault w (pdf_path w)
              (laid_out (font_path w) (clean_proposal_text text) (footer f))
            = None
         /\ generate_proposal w f
            = ([StSpinner msg_spinner; ChatCreate model_name (prompt f);
                PdfOutput (pdf_path w)
                  (laid_out (font_path w) (clean_proposal_text text) (footer f));
                StSubheader (128196%N :: py " Generated Proposal");
                StWrite (clean_proposal_text text);
                StError (msg_error e)], Done tt))
  (* nothing raised *)
  \/ (exists tail,
         open_fault w (pdf_path w) = None
         /\ output_fault w (pdf_path w)
              (laid_out (font_path w) (clean_proposal_text text) (footer f))
            = None
         /\ generate_proposal w f
            = (StSpinner msg_spinner :: ChatCreate model_name (prompt f)
               :: PdfOutput (pdf_path w)
                    (laid_out (font_path w) (clean_proposal_text text) (footer f))
               :: StSubheader (128196%N :: py " Generated Proposal")
               :: StWrite (clean_proposal_text text)
               :: StDownloadButton (11015%N :: py " Download Proposal (PDF)")
                    (fpdf_output w
                       (laid_out (font_path w) (clean_proposal_text text) (footer f)))
                    (py "proposal.pdf") (py "application/pdf")
               :: StLinkButton (128279%N :: py " Share Proposal")
                    (py "https://x.com/intent/tweet?text=Check%20out%20my%20personalized%20proposal%20for%20"
                     ++ client_name f ++ py "!%20Try%20this%20app%20too!")
               :: StWidget (128140%N :: py " Enter your email for Unlimited Access ($19/mo)")
               :: tail, Done tt)
         /\ (tail = [] \/ exists msg, tail = [StSuccess msg])).
Proof.
  intros Hv Hg Hf. unfold generate_proposal, generate_body. cbv zeta.
  fold model_name. rewrite Hv, Hg, Hf. run_step.
  do 9 (fpdf_step;
        [left; eexists; split;
         [left; eexists; eexists; eassumption|reflexivity]|]).
  fold (laid_out (font_path w) (clean_proposal_text text) (footer f)).
  unfold pdf_output.
  destruct (output_fault w (pdf_path w)
              (laid_out (font_path w) (clean_proposal_text text) (footer f)))
    as [e|] eqn:Ho; run_step.
  { left. exists e. split; [right; reflexivity|reflexivity]. }
  unfold read_file.
  destruct (open_fault w (pdf_path w)) as [e|] eqn:Hr; run_step.
  { right. left. exists e. repeat split. }
  unfold write_file. rewrite pystr_eqb_refl. run_step.
  right. right. destruct (truthy (premium_email w)).
  - eexists. split; [reflexivity|]. split; [reflexivity|].
    split; [reflexivity|]. right. eexists. reflexivity.
  - exists []. repeat split. left. reflexivity.
Qed.

End Runs.

(** The ways a run of the handler can go. *)
Lemma run_cases w f :
  (missing_fields f = true
   /\ generate_proposal w f = ([StWarning msg_fill_fields], Done tt))
  \/ (missing_fields f = false
      /\ exists e,
           chat_create w model_name (prompt f) = inr e
           /\ generate_proposal w f
              = ([StSpinner msg_spinner; ChatCreate model_name (prompt f);
                  StError (msg_error e)], Done tt))
  \/ (missing_fields f = false
      /\ exists text,
           chat_create w model_name (prompt f) = inl text
           /\ path_exists w (font_path w) = false
           /\ generate_proposal w f
              = ([StSpinner msg_spinner; ChatCreate model_name (prompt f);
                  StError msg_missing_font], Stopped))
  \/ (missing_fields f = false
      /\ exists text,
           chat_create w model_name (prompt f) = inl text
           /\ path_exists w (font_path w) = true
           /\ exists e,
                generate_proposal w f
                = ([StSpinner msg_spinner; ChatCreate model_name (prompt f);
                    StError (msg_error e)], Done tt))
  \/ (missing_fields f = false
      /\ exists text,
           chat_create w model_name (prompt f) = inl text
           /\ path_exists w (font_path w) = true
           /\ documents (events (generate_proposal w f))
              = [laid_out (font_path w) (clean_proposal_text text) (footer f)]
           /\ shown (events (generate_proposal w f)) = [clean_proposal_text text]
           /\ generation_calls (events (generate_proposal w f)) = [prompt f]
           /\ warnings (events (generate_proposal w f)) = []
           /\ outcome (generate_proposal w f) = Done tt
           /\ (downloads (events (generate_proposal w f)) = []
               \/ downloads (events (generate_proposal w f))
                  = [fpdf_output w
                       (laid_out (font_path w) (clean_proposal_text text)
                          (footer f))])).
Proof.
  destruct (missing_fields f) eqn:Hv.
  { left. split; [reflexivity|apply run_missing_fields, Hv]. }
  right. destruct (chat_create w model_name (prompt f)) as [text|e] eqn:Hg.
  2:{ left. split; [reflexivity|]. exists e.
      split; [reflexivity|]. apply (run_service_error w f e Hv Hg). }
  right. destruct (path_exists w (font_path w)) eqn:Hf.
  2:{ left. split; [reflexivity|]. exists text.
      repeat split. apply (run_missing_font w f text Hv Hg Hf). }
  right.
  destruct (run_font_present w f text Hv Hg Hf)
    as [[e [_ Hr]]|[[e [_ [_ Hr]]]|[tail [_ [_ [Hr Ht]]]]]].
  - left. split; [reflexivity|]. exists text. repeat split. exists e. exact Hr.
  - right. split; [reflexivity|]. exists text. rewrite Hr.
    repeat split. left. reflexivity.
  - right. split; [reflexivity|]. exists text. rewrite Hr.
    destruct Ht as [->|[msg ->]]; repeat split; right; reflexivity.
Qed.

(** Whatever happens, no exception leaves the handler. *)
Lemma handler_never_raises w f e : outcome (generate_proposal w f) <> Raised e.
Proof.
  destruct (run_cases w f)
    as [[_ ->]|[[_ [x [_ ->]]]|[[_ [t [_ [_ ->]]]]|[[_ [t [_ [_ [x ->]]]]]|[_ [t [_ [_ [_ [_ [_ [_ [Ho _]]]]]]]]]]]]];
    try discriminate.
  rewrite Ho. discriminate.
Qed.

(** A document that was written is the one laid out from the cleaned
    text and the footer, and the cleaned text is on the screen. *)
Lemma written_document w f d :
  In d (documents (events (generate_proposal w f))) ->
  missing_fields f = false
  /\ path_exists w (font_path w) = true
  /\ exists text,
       chat_create w model_name (prompt f) = inl text
       /\ d = laid_out (font_path w) (clean_proposal_text text) (footer f)
       /\ documents (events (generate_proposal w f)) = [d]
       /\ shown (events (generate_proposal w f)) = [clean_proposal_text text]
       /\ (downloads (events (generate_proposal w f)) = []
           \/ downloads (events (generate_proposal w f)) = [fpdf_output w d]).
Proof.
  destruct (run_cases w f)
    as [[_ ->]|[[_ [x [_ ->]]]|[[_ [t [_ [_ ->]]]]|[[_ [t [_ [_ [x ->]]]]]|[Hv [t [Hg [Hf [Hd [Hs [_ [_ [_ Hb]]]]]]]]]]]]];
    try (simpl; tauto).
  rewrite Hd. intros [<-|[]]. split; [exact Hv|]. split; [exact Hf|].
  exists t. repeat split; assumption.
Qed.

(** A request that passes the test of line 54 gets exactly one generation
    call, whatever the call, the font check and the FPDF calls then do. *)
Lemma valid_request_calls w f :
  missing_fields f = false ->
  generation_calls (events (generate_proposal w f)) = [prompt f]
  /\ In (ChatCreate model_name (prompt f)) (events (generate_proposal w f))
  /\ warnings (events (generate_proposal w f)) = [].
Proof.
  intros Hv.
  destruct (chat_create w model_name (prompt f)) as [text|e] eqn:Hg.
  - destruct (path_exists w (font_path w)) eqn:Hf.
    + destruct (run_font_present w f text Hv Hg Hf)
        as [[e [_ ->]]|[[e [_ [_ ->]]]|[tail [_ [_ [-> Ht]]]]]].
      * repeat split; simpl; tauto.
      * repeat split; simpl; tauto.
      * destruct Ht as [->|[msg ->]]; repeat split; simpl; tauto.
    + rewrite (run_missing_font w f text Hv Hg Hf).
      repeat split; simpl; tauto.
  - rewrite (run_service_error w f e Hv Hg). repeat split; simpl; tauto.
Qed.


Lemma truthy_false s : truthy s = false <-> s = [].
Proof. destruct s; simpl; split; congruence. Qed.

Lemma missing_fields_true f :
  missing_fields f = true <->
  client_name f = [] \/ service f = [] \/ contact_name f = []
  \/ (budget f <= 0)%Z.
Proof.
  unfold missing_fields.
  rewrite !orb_true_iff, !negb_true_iff, !truthy_false, Z.leb_le. tauto.
Qed.

Lemma missing_fields_false f :
  missing_fields f = false <->
  client_name f <> [] /\ service f <> [] /\ contact_name f <> []
  /\ (0 < budget f)%Z.
Proof.
  rewrite <- not_true_iff_false, missing_fields_true.
  destruct (client_name f), (service f), (contact_name f);
    intuition (try congruence; try lia).
Qed.

(** ** Lines of a text *)

Lemma lines_from_app cur a b :
  lines_from cur (a ++ ch_newline :: b) = lines_from cur a ++ lines b.
Proof.
  revert cur. induction a as [|c a IH]; intros cur; simpl; [reflexivity|].
  destruct (c =? ch_newline)%N; simpl; rewrite IH; reflexivity.
Qed.

Lemma lines_app a b : lines (a ++ ch_newline :: b) = lines a ++ lines b.
Proof. apply lines_from_app. Qed.

Lemma lines_footer f :
  lines (footer f)
  = [py "---"] ++ lines (py "Prepared by: " ++ contact_name f)
    ++ lines (py "Email: " ++ contact_email f)
    ++ lines (py "Phone: " ++ contact_phone f).
Proof.
  unfold footer.
  change (py "---" ++ [ch_newline] ++ py "Prepared by: " ++ contact_name f
          ++ [ch_newline] ++ py "Email: " ++ contact_email f
          ++ [ch_newline] ++ py "Phone: " ++ contact_phone f)
    with (py "---" ++ ch_newline :: (py "Prepared by: " ++ contact_name f
          ++ ch_newline :: (py "Email: " ++ contact_email f
          ++ ch_newline :: (py "Phone: " ++ contact_phone f)))).
  rewrite lines_app. f_equal.
  rewrite app_assoc, lines_app. f_equal.
  rewrite app_assoc, lines_app. reflexivity.
Qed.

(** ** The handler *)

(** C4.  With an empty client name, service or sender name, or a budget
    of nought or less, the handler makes no generation call and shows the
    validation warning; with all three filled in and a positive budget it
    builds the prompt and makes the generation call with it. *)
Theorem validation_gate (w : world) (f : form) :
  (client_name f = [] \/ service f = [] \/ contact_name f = []
   \/ (budget f <= 0)%Z ->
   generation_calls (events (generate_proposal w f)) = []
   /\ warnings (events (generate_proposal w f)) = [msg_fill_fields]
   /\ outcome (generate_proposal w f) = Done tt)
  /\
  (client_name f <> [] -> service f <> [] -> contact_name f <> [] ->
   (0 < budget f)%Z ->
   generation_calls (events (generate_proposal w f)) = [prompt f]
   /\ In (ChatCreate model_name (prompt f)) (events (generate_proposal w f))
   /\ warnings (events (generate_proposal w f)) = []).
Proof.
  split.
  - intros H. apply missing_fields_true in H.
    rewrite (run_missing_fields w f H). repeat split.
  - intros H1 H2 H3 H4. apply valid_request_calls.
    apply missing_fields_false. tauto.
Qed.

Lemma validation_gate_witness :
  generation_calls (events (generate_proposal Demo.world_ok Demo.form_no_client)) = []
  /\ generation_calls (events (generate_proposal Demo.world_ok Demo.form_ok))
     = [prompt Demo.form_ok].
Proof.
  split.
  - apply (proj1 (validation_gate Demo.world_ok Demo.form_no_client)).
    left. reflexivity.
  - apply (proj2 (validation_gate Demo.world_ok Demo.form_ok));
      simpl; try discriminate; lia.
Defined.

(** C8.  When the generation call raises, the handler catches the
    exception and shows one error message made from it; the handler ends
    normally, and neither [pdf.output] nor the download is reached. *)
Theorem service_failure_reported (w : world) (f : form) (e : exn) :
  missing_fields f = false ->
  chat_create w model_name (prompt f) = inr e ->
  errors (events (generate_proposal w f))
  = [warning_sign ++ py " Error: " ++ exn_str e]
  /\ outcome (generate_proposal w f) = Done tt
  /\ documents (events (generate_proposal w f)) = []
  /\ downloads (events (generate_proposal w f)) = []
  /\ shown (events (generate_proposal w f)) = [].
Proof.
  intros Hv Hg. rewrite (run_service_error w f e Hv Hg). repeat split.
Qed.

Lemma service_failure_reported_witness :
  errors (events (generate_proposal Demo.world_down Demo.form_ok))
  = [warning_sign ++ py " Error: Connection error."]
  /\ outcome (generate_proposal Demo.world_down Demo.form_ok) = Done tt.
Proof.
  destruct (service_failure_reported Demo.world_down Demo.form_ok
              {| exn_str := py "Connection error." |} eq_refl eq_refl)
    as [H1 [H2 _]].
  split; [exact H1|exact H2].
Defined.

(** C3 (as amended).  With a valid request and a generation call that
    returns, a missing font file is found after the generation call and
    before any text is laid out or the file written: the handler shows the
    error and stops the script with [st.stop()]; no exception is raised. *)
Theorem missing_font_stops (w : world) (f : form) (text : pystr) :
  missing_fields f = false ->
  chat_create w model_name (prompt f) = inl text ->
  path_exists w (font_path w) = false ->
  events (generate_proposal w f)
  = [StSpinner msg_spinner; ChatCreate model_name (prompt f);
     StError msg_missing_font]
  /\ outcome (generate_proposal w f) = Stopped
  /\ documents (events (generate_proposal w f)) = []
  /\ downloads (events (generate_proposal w f)) = [].
Proof.
  intros Hv Hg Hf. rewrite (run_missing_font w f text Hv Hg Hf). repeat split.
Qed.

Lemma missing_font_stops_witness :
  outcome (generate_proposal Demo.world_no_font Demo.form_ok) = Stopped
  /\ documents (events (generate_proposal Demo.world_no_font Demo.form_ok)) = [].
Proof.
  destruct (missing_font_stops Demo.world_no_font Demo.form_ok
              (py "**Hello** [Name], welcome!") eq_refl eq_refl eq_refl)
    as [_ [H1 [H2 _]]].
  split; [exact H1|exact H2].
Defined.

(** C3, as stated, fails: with a valid request and no font file the
    generation call is made all the same. *)
Lemma missing_font_generation_made :
  missing_fields Demo.form_ok = false
  /\ path_exists Demo.world_no_font (font_path Demo.world_no_font) = false
  /\ generation_calls (events (generate_proposal Demo.world_no_font Demo.form_ok))
     <> [].
Proof. repeat split. discriminate. Qed.







(** C6.  What a written document holds is fixed by the cleaned text and
    by the sender's name, email and phone: two runs, whatever else differs
    between them (the other fields of the request, the key, the paths, the
    answers of the outside world), whose generated texts clean to the same
    text and whose sender details agree, show the same text and write
    documents with the same texts under the same margins; with the font at
    the same path the documents are the same call for call. *)
Theorem cleaned_text_and_document_determined
    (w1 w2 : world) (f1 f2 : form) (d1 d2 : FPDF) (t1 t2 : pystr) :
  In d1 (documents (events (generate_proposal w1 f1))) ->
  In d2 (documents (events (generate_proposal w2 f2))) ->
  chat_create w1 model_name (prompt f1) = inl t1 ->
  chat_create w2 model_name (prompt f2) = inl t2 ->
  clean_proposal_text t1 = clean_proposal_text t2 ->
  contact_name f1 = contact_name f2 ->
  contact_email f1 = contact_email f2 ->
  contact_phone f1 = contact_phone f2 ->
  shown (events (generate_proposal w1 f1))
  = shown (events (generate_proposal w2 f2))
  /\ drawn d1 = drawn d2
  /\ (script_dir w1 = script_dir w2 -> d1 = d2).
Proof.
  intros Hd1 Hd2 Hg1 Hg2 Hc Hn He Hp.
  destruct (written_document w1 f1 d1 Hd1)
    as [_ [_ [x1 [Hx1 [-> [_ [Hs1 _]]]]]]].
  destruct (written_document w2 f2 d2 Hd2)
    as [_ [_ [x2 [Hx2 [-> [_ [Hs2 _]]]]]]].
  rewrite Hg1 in Hx1. injection Hx1 as <-.
  rewrite Hg2 in Hx2. injection Hx2 as <-.
  assert (Hft : footer f1 = footer f2)
    by (unfold footer; rewrite Hn, He, Hp; reflexivity).
  rewrite Hs1, Hs2, Hc, Hft. split; [reflexivity|]. split; [reflexivity|].
  intros Hd. unfold font_path. rewrite Hd. reflexivity.
Qed.

Lemma cleaned_text_and_document_determined_witness :
  laid_out (font_path Demo.world_ok) (py "Hello , welcome!") (footer Demo.form_ok)
  = laid_out (font_path Demo.world_other) (py "Hello , welcome!")
      (footer Demo.form_other_client).
Proof.
  apply (cleaned_text_and_document_determined
           Demo.world_ok Demo.world_other Demo.form_ok Demo.form_other_client
           _ _ (py "**Hello** [Name], welcome!") (py "Hello [You], *welcome*! "));
    try reflexivity; left; reflexivity.
Defined.

(** * Further properties of the code *)

(** ** What a cleaned text looks like *)

Lemma subseq_refl s : subseq s s.
Proof. induction s; constructor; assumption. Qed.

Lemma subseq_trans b c : subseq b c -> forall a, subseq a b -> subseq a c.
Proof.
  induction 1 as [|x b c Hbc IH|x b c Hbc IH]; intros a Hab.
  - exact Hab.
  - inversion Hab; subst.
    + apply subseq_keep. apply IH. assumption.
    + apply subseq_drop. apply IH. assumption.
  - apply subseq_drop. apply IH. assumption.
Qed.

Lemma subseq_suffix a b : subseq b (a ++ b).
Proof. induction a; simpl; [apply subseq_refl|apply subseq_drop; assumption]. Qed.

Lemma subseq_prefix a b : subseq a (a ++ b).
Proof.
  induction a as [|c a IH]; simpl.
  - induction b; constructor; assumption.
  - apply subseq_keep, IH.
Qed.

Lemma subseq_length a b : subseq a b -> length a <= length b.
Proof. induction 1; simpl; lia. Qed.

Lemma re_sub_from_subseq m s : forall k, subseq (re_sub_from m k s) s.
Proof.
  induction s as [|c r IH]; intros k.
  - rewrite re_sub_from_nil. constructor.
  - destruct k as [|k]; simpl.
    + destruct (m (c :: r)) as [[|j]|]; try (apply subseq_keep, IH).
      apply subseq_drop, IH.
    + apply subseq_drop, IH.
Qed.

Lemma py_strip_subseq s : subseq (py_strip s) s.
Proof.
  unfold py_strip, py_lstrip.
  destruct (py_rstrip_prefix (dropwhile py_isspace s)) as [b Hb].
  destruct (dropwhile_suffix py_isspace s) as [a Ha].
  apply subseq_trans with (b := dropwhile py_isspace s).
  - rewrite Ha at 2. apply subseq_suffix.
  - rewrite Hb at 2. apply subseq_prefix.
Qed.

Lemma py_strip_solid s :
  head_solid (py_strip s) /\ head_solid (rev (py_strip s)).
Proof.
  unfold py_strip, py_lstrip.
  set (u := dropwhile py_isspace s).
  assert (Hu : head_solid u) by apply dropwhile_head_solid.
  destruct (py_rstrip_prefix u) as [b Hb]. split.
  - apply head_solid_prefix with (b := b). rewrite <- Hb. exact Hu.
  - unfold py_rstrip. rewrite rev_involutive. apply dropwhile_head_solid.
Qed.

Lemma py_strip_fixed s :
  head_solid s -> head_solid (rev s) -> py_strip s = s.
Proof.
  intros H1 H2. unfold py_strip, py_lstrip, py_rstrip.
  rewrite (dropwhile_fixed _ H1), (dropwhile_fixed _ H2).
  apply rev_involutive.
Qed.

Lemma scan_close_one_line mid b :
  ~ In ch_newline mid ->
  exists n, scan_close (mid ++ ch_rbracket :: b) = Some n.
Proof.
  induction mid as [|c mid IH]; intros H; simpl.
  - exists 1. reflexivity.
  - destruct (c =? ch_rbracket)%N; [exists 1; reflexivity|].
    destruct (c =? ch_newline)%N eqn:En.
    + apply N.eqb_eq in En. subst c. exfalso. apply H. now left.
    + destruct IH as [n Hn]; [intros Hin; apply H; now right|].
      rewrite Hn. exists (S n). reflexivity.
Qed.

(** A text is quiet exactly when each of its bracket pairs has a line
    end between the brackets. *)
Lemma quiet_spans t :
  quiet t <->
  (forall a mid b,
      t = a ++ ch_lbracket :: mid ++ ch_rbracket :: b -> In ch_newline mid).
Proof.
  split.
  - intros Hq a mid b E.
    destruct (in_dec N.eq_dec ch_newline mid) as [Hin|Hout]; [exact Hin|].
    exfalso. specialize (Hq a _ E). simpl in Hq.
    destruct (scan_close_one_line mid b Hout) as [n Hn].
    rewrite Hn in Hq. discriminate Hq.
  - intros H a b E.
    destruct (match_bracket b) as [n|] eqn:Em; [|reflexivity].
    exfalso. destruct (match_bracket_shape _ _ Em) as [mid [post [-> [_ [Hnl _]]]]].
    apply Hnl. exact (H a mid post E).
Qed.

(** X1.  No emphasis marker is left in a cleaned text. *)
Theorem clean_leaves_no_emphasis (x : pystr) :
  ~ In ch_star (clean_proposal_text x).
Proof.
  unfold clean_proposal_text. intros H.
  apply py_strip_In, re_sub_from_In in H.
  rewrite re_sub_stars in H. exact (strip_emphasis_no_star _ H).
Qed.

(** X2.  No bracketed span on one line is left in a cleaned text: where
    the result holds a "[" and a later "]", a line end lies between them. *)
Theorem clean_leaves_no_one_line_span (x a mid b : pystr) :
  clean_proposal_text x = a ++ ch_lbracket :: mid ++ ch_rbracket :: b ->
  In ch_newline mid.
Proof.
  intros E. apply (proj1 (quiet_spans (clean_proposal_text x))) with (a := a) (b := b).
  - apply py_strip_quiet, re_sub_from_quiet.
  - exact E.
Qed.

Lemma clean_leaves_no_one_line_span_witness :
  In ch_newline (py "Your" ++ [ch_newline] ++ py "Name").
Proof.
  apply (clean_leaves_no_one_line_span
           (py " *Dear* [Your" ++ [ch_newline] ++ py "Name], [x] hi ")
           (py "Dear ") (py "Your" ++ [ch_newline] ++ py "Name") (py ",  hi")).
  reflexivity.
Defined.

(** X3.  A cleaned text neither starts nor ends with white space. *)
Theorem clean_is_trimmed (x : pystr) :
  (forall c r, clean_proposal_text x = c :: r -> py_isspace c = false)
  /\ (forall r c, clean_proposal_text x = r ++ [c] -> py_isspace c = false).
Proof.
  destruct (py_strip_solid (re_sub match_bracket (re_sub match_stars x)))
    as [H1 H2].
  fold (clean_proposal_text x) in H1, H2. split.
  - intros c r E. rewrite E in H1. exact H1.
  - intros r c E. rewrite E, rev_app_distr in H2. exact H2.
Qed.

(** X4.  Cleaning only deletes: the result is the input with some
    characters removed, the others in their order, so it is never longer
    than the input. *)
Theorem clean_only_deletes (x : pystr) :
  subseq (clean_proposal_text x) x
  /\ length (clean_proposal_text x) <= length x.
Proof.
  assert (H : subseq (clean_proposal_text x) x).
  { unfold clean_proposal_text.
    apply subseq_trans with (b := re_sub match_stars x);
      [apply re_sub_from_subseq|].
    apply subseq_trans with (b := re_sub match_bracket (re_sub match_stars x));
      [apply re_sub_from_subseq|apply py_strip_subseq]. }
  split; [exact H|apply subseq_length, H].
Qed.

(** X5.  The texts that cleaning leaves as they are: those without
    emphasis marker, without a bracketed span on one line, and without
    white space at either end. *)
Theorem clean_fixed_points (x : pystr) :
  clean_proposal_text x = x <->
  ~ In ch_star x
  /\ (forall a mid b,
         x = a ++ ch_lbracket :: mid ++ ch_rbracket :: b -> In ch_newline mid)
  /\ head_solid x /\ head_solid (rev x).
Proof.
  split.
  - intros E. split; [|split].
    + rewrite <- E. intros H. apply py_strip_In, re_sub_from_In in H.
      rewrite re_sub_stars in H. exact (strip_emphasis_no_star _ H).
    + apply quiet_spans. rewrite <- E. apply py_strip_quiet, re_sub_from_quiet.
    + rewrite <- E. apply py_strip_solid.
  - intros [Hs [Hq [H1 H2]]]. unfold clean_proposal_text.
    rewrite re_sub_stars, (strip_emphasis_fixed _ Hs).
    rewrite (re_sub_quiet_fixed x) by (apply quiet_spans; exact Hq).
    apply py_strip_fixed; assumption.
Qed.

(** ** White space and lone brackets *)

Lemma blank_app a b : blank (a ++ b) = blank a && blank b.
Proof. apply forallb_app. Qed.

Lemma blank_not_in c s : py_isspace c = false -> blank s = true -> ~ In c s.
Proof.
  intros Hc Hb Hin. unfold blank in Hb. rewrite forallb_forall in Hb.
  rewrite (Hb _ Hin) in Hc. discriminate Hc.
Qed.

Lemma dropwhile_blank_app a b :
  blank a = true -> dropwhile py_isspace (a ++ b) = dropwhile py_isspace b.
Proof.
  induction a as [|c a IH]; simpl; [reflexivity|].
  intros H. apply andb_true_iff in H. destruct H as [Hc Ha].
  rewrite Hc. apply IH, Ha.
Qed.

Lemma dropwhile_blank a : blank a = true -> dropwhile py_isspace a = [].
Proof.
  intros H. rewrite <- (app_nil_r a). rewrite (dropwhile_blank_app a [] H).
  reflexivity.
Qed.

Lemma blank_rev a : blank (rev a) = blank a.
Proof.
  induction a as [|c a IH]; [reflexivity|].
  simpl rev. rewrite blank_app, IH. simpl. rewrite andb_true_r. apply andb_comm.
Qed.

Lemma py_rstrip_blank_app a b :
  blank b = true -> py_rstrip (a ++ b) = py_rstrip a.
Proof.
  intros H. unfold py_rstrip. rewrite rev_app_distr.
  rewrite dropwhile_blank_app by (rewrite blank_rev; exact H). reflexivity.
Qed.

Lemma dropwhile_app_blank a b :
  blank b = true ->
  dropwhile py_isspace (a ++ b) = dropwhile py_isspace a ++ b
  \/ (dropwhile py_isspace (a ++ b) = [] /\ dropwhile py_isspace a = []).
Proof.
  intros H. induction a as [|c a IH]; simpl.
  - right. split; [apply dropwhile_blank, H|reflexivity].
  - destruct (py_isspace c); [exact IH|]. left. reflexivity.
Qed.

Lemma py_strip_padding a s b :
  blank a = true -> blank b = true -> py_strip (a ++ s ++ b) = py_strip s.
Proof.
  intros Ha Hb. unfold py_strip, py_lstrip.
  rewrite (dropwhile_blank_app a (s ++ b) Ha).
  destruct (dropwhile_app_blank s b Hb) as [E|[E1 E2]].
  - rewrite E. apply py_rstrip_blank_app, Hb.
  - rewrite E1, E2. reflexivity.
Qed.

Lemma strip_emphasis_blank s : blank s = true -> Spec.strip_emphasis s = s.
Proof.
  intros H. apply strip_emphasis_fixed. apply blank_not_in; [reflexivity|exact H].
Qed.

Lemma scan_close_app_no_close a b :
  ~ In ch_rbracket b -> scan_close (a ++ b) = scan_close a.
Proof.
  intros H. induction a as [|c a IH]; simpl.
  - apply scan_close_no_close, H.
  - rewrite IH. reflexivity.
Qed.

(** Text added behind, holding no bracket, is copied and changes no
    match before it. *)
Lemma re_sub_from_app_plain a b : forall k,
  ~ In ch_lbracket b -> ~ In ch_rbracket b -> k <= length a ->
  re_sub_from match_bracket k (a ++ b) = re_sub_from match_bracket k a ++ b.
Proof.
  intros k Hl Hr. revert k. induction a as [|c a IH]; intros k Hk.
  - assert (k = 0) by (simpl in Hk; lia). subst k. simpl.
    rewrite <- (app_nil_r b) at 1.
    change (re_sub match_bracket (b ++ []) = b).
    rewrite (re_sub_no_open b [] Hl). apply app_nil_r.
  - destruct k as [|k].
    + simpl. rewrite (scan_close_app_no_close a b Hr).
      destruct (c =? ch_lbracket)%N.
      * destruct (scan_close a) as [i|] eqn:Es; simpl.
        -- apply IH. apply (scan_close_le _ _ Es).
        -- simpl. f_equal. apply IH. lia.
      * simpl. f_equal. apply IH. lia.
    + simpl. apply IH. simpl in Hk. lia.
Qed.

(** X6.  A text made of white space and emphasis markers only is
    cleaned to the empty text. *)
Theorem clean_blank (x : pystr) :
  forallb (fun c => py_isspace c || (c =? ch_star)%N) x = true ->
  clean_proposal_text x = [].
Proof.
  intros H. unfold clean_proposal_text. rewrite re_sub_stars.
  assert (Hb : blank (Spec.strip_emphasis x) = true).
  { unfold blank, Spec.strip_emphasis. apply forallb_forall.
    intros c Hc. apply filter_In in Hc. destruct Hc as [Hin Hs].
    rewrite forallb_forall in H. specialize (H _ Hin).
    apply negb_true_iff in Hs. rewrite Hs, orb_false_r in H. exact H. }
  rewrite <- (app_nil_r (Spec.strip_emphasis x)).
  rewrite re_sub_no_open by (apply blank_not_in; [reflexivity|exact Hb]).
  rewrite app_nil_r. unfold py_strip, py_lstrip.
  rewrite (dropwhile_blank _ Hb). reflexivity.
Qed.

Lemma clean_blank_witness :
  clean_proposal_text (py " ** " ++ [ch_newline] ++ py " * ") = [].
Proof.
  apply (clean_blank (py " ** " ++ [ch_newline] ++ py " * ")). reflexivity.
Defined.

(** X7.  A bracket without partner stays: in a text with no "[" at all,
    or with no "]" at all, only the emphasis markers and the white space at
    the ends are removed. *)
Theorem clean_lone_brackets (x : pystr) :
  ~ In ch_lbracket x \/ ~ In ch_rbracket x ->
  clean_proposal_text x
  = py_strip (filter (fun c => negb (c =? ch_star)%N) x).
Proof.
  intros H. unfold clean_proposal_text. rewrite re_sub_stars.
  fold (Spec.strip_emphasis x). f_equal.
  destruct H as [H|H].
  - rewrite <- (app_nil_r (Spec.strip_emphasis x)) at 1.
    rewrite re_sub_no_open; [apply app_nil_r|].
    intros Hin. apply H. exact (strip_emphasis_In _ _ Hin).
  - apply re_sub_quiet_fixed, no_close_quiet.
    intros Hin. apply H. exact (strip_emphasis_In _ _ Hin).
Qed.

Lemma clean_lone_brackets_witness :
  clean_proposal_text (py " see [1 and *more* ") = py "see [1 and more".
Proof.
  rewrite (clean_lone_brackets (py " see [1 and *more* ")).
  - reflexivity.
  - right. not_in_literal.
Defined.

(** X8.  White space around a text does not change what cleaning
    gives. *)
Theorem clean_ignores_padding (a x b : pystr) :
  blank a = true -> blank b = true ->
  clean_proposal_text (a ++ x ++ b) = clean_proposal_text x.
Proof.
  intros Ha Hb. unfold clean_proposal_text. rewrite !re_sub_stars.
  rewrite !strip_emphasis_app.
  rewrite (strip_emphasis_blank a Ha), (strip_emphasis_blank b Hb).
  rewrite re_sub_no_open by (apply blank_not_in; [reflexivity|exact Ha]).
  unfold re_sub at 1. rewrite re_sub_from_app_plain.
  - apply py_strip_padding; assumption.
  - apply blank_not_in; [reflexivity|exact Hb].
  - apply blank_not_in; [reflexivity|exact Hb].
  - lia.
Qed.

Lemma clean_ignores_padding_witness :
  clean_proposal_text (py "  " ++ py "*Hi* [x] there" ++ [ch_newline; 32%N])
  = clean_proposal_text (py "*Hi* [x] there").
Proof.
  apply (clean_ignores_padding (py "  ") (py "*Hi* [x] there") [ch_newline; 32%N]);
    reflexivity.
Defined.

(** ** The order of the two substitutions *)

Lemma strip_spans_cons ok c r :
  Spec.strip_spans ok (c :: r)
  = match Spec.next_close r with
    | Some (mid, post) =>
        if ((c =? ch_lbracket)%N && ok mid)%bool
        then Spec.strip_spans ok post
        else c :: Spec.strip_spans ok r
    | None => c :: Spec.strip_spans ok r
    end.
Proof.
  funelim (Spec.strip_spans ok (c :: r)).
  - match goal with E : Spec.next_close _ = Some _ |- _ => rewrite E end.
    reflexivity.
  - match goal with E : Spec.next_close _ = None |- _ => rewrite E end.
    reflexivity.
Qed.

Lemma strip_emphasis_drop c r :
  (c =? ch_star)%N = true ->
  Spec.strip_emphasis (c :: r) = Spec.strip_emphasis r.
Proof. intros H. unfold Spec.strip_emphasis. simpl. rewrite H. reflexivity. Qed.

Lemma next_close_strip_emphasis r :
  Spec.next_close (Spec.strip_emphasis r)
  = match Spec.next_close r with
    | Some (mid, post) =>
        Some (Spec.strip_emphasis mid, Spec.strip_emphasis post)
    | None => None
    end.
Proof.
  induction r as [|c r IH]; [reflexivity|].
  unfold Spec.strip_emphasis in *. simpl.
  destruct (c =? ch_star)%N eqn:Es; simpl.
  - assert (Er : (c =? ch_rbracket)%N = false).
    { apply N.eqb_eq in Es. subst c. reflexivity. }
    rewrite Er, IH. destruct (Spec.next_close r) as [[mid post]|]; simpl.
    + rewrite Es. reflexivity.
    + reflexivity.
  - destruct (c =? ch_rbracket)%N; [reflexivity|].
    rewrite IH. destruct (Spec.next_close r) as [[mid post]|]; simpl.
    + rewrite Es. reflexivity.
    + reflexivity.
Qed.

Lemma one_line_strip_emphasis mid :
  Spec.one_line (Spec.strip_emphasis mid) = Spec.one_line mid.
Proof.
  unfold Spec.one_line, Spec.strip_emphasis.
  induction mid as [|c mid IH]; [reflexivity|]. simpl.
  destruct (c =? ch_star)%N eqn:Es; simpl; rewrite IH.
  - apply N.eqb_eq in Es. subst c. reflexivity.
  - reflexivity.
Qed.

Lemma strip_spans_strip_emphasis s :
  Spec.strip_spans Spec.one_line (Spec.strip_emphasis s)
  = Spec.strip_emphasis (Spec.strip_spans Spec.one_line s).
Proof.
  funelim (Spec.strip_spans Spec.one_line s).
  - reflexivity.
  - match goal with E : Spec.next_close _ = Some _ |- _ => rename E into Hnc end.
    destruct (c =? ch_star)%N eqn:Es.
    + assert (El : (c =? ch_lbracket)%N = false).
      { apply N.eqb_eq in Es. subst c. reflexivity. }
      rewrite El. cbn [andb]. rewrite !(strip_emphasis_drop c _ Es). assumption.
    + rewrite (strip_emphasis_keep c r Es), strip_spans_cons.
      rewrite next_close_strip_emphasis, Hnc, one_line_strip_emphasis.
      destruct ((c =? ch_lbracket)%N && Spec.one_line mid)%bool; [assumption|].
      rewrite (strip_emphasis_keep c _ Es). f_equal. assumption.
  - match goal with E : Spec.next_close _ = None |- _ => rename E into Hnc end.
    destruct (c =? ch_star)%N eqn:Es.
    + rewrite !(strip_emphasis_drop c _ Es). assumption.
    + rewrite (strip_emphasis_keep c r Es), strip_spans_cons.
      rewrite next_close_strip_emphasis, Hnc.
      rewrite (strip_emphasis_keep c _ Es). f_equal. assumption.
Qed.

(** X9.  The two substitutions can be done in either order: removing
    the bracketed spans first and the emphasis markers second gives the
    same text. *)
Theorem substitutions_commute (text : pystr) :
  re_sub match_bracket (re_sub match_stars text)
  = re_sub match_stars (re_sub match_bracket text).
Proof.
  rewrite !re_sub_stars, !re_sub_bracket. apply strip_spans_strip_emphasis.
Qed.

(** ** Every run of the handler *)

(** X10.  No exception leaves the handler, whatever the service and the
    file system do; a run ends by [st.stop()] exactly when the request is
    valid, the generation call returned a text and the font file is
    missing. *)
Theorem handler_outcome (w : world) (f : form) :
  (forall e, outcome (generate_proposal w f) <> Raised e)
  /\ (outcome (generate_proposal w f) = Stopped <->
      missing_fields f = false
      /\ (exists text, chat_create w model_name (prompt f) = inl text)
      /\ path_exists w (font_path w) = false).
Proof.
  split; [intros e; apply handler_never_raises|].
  destruct (run_cases w f)
    as [[Hv ->]|[[Hv [e [Hg ->]]]|[[Hv [t [Hg [Hf ->]]]]|[[Hv [t [Hg [Hf [x ->]]]]]|[Hv [t [Hg [Hf [_ [_ [_ [_ [Ho _]]]]]]]]]]]]].
  - split; [discriminate|]. intros [H _]. congruence.
  - split; [discriminate|]. intros [_ [[t Ht] _]]. congruence.
  - split; [|reflexivity].
    intros _. split; [exact Hv|]. split; [exists t; exact Hg|exact Hf].
  - split; [discriminate|]. intros [_ [_ H]]. congruence.
  - rewrite Ho. split; [discriminate|]. intros [_ [_ H]]. congruence.
Qed.

(** X11.  A document is written only for a valid request, after a
    generation call that returned a text and with the font file in
    place, and at most once; whatever is offered for download is the byte
    stream of the document written in that run. *)
Theorem document_written_only_if (w : world) (f : form) :
  (documents (events (generate_proposal w f)) <> [] ->
   missing_fields f = false
   /\ (exists text, chat_create w model_name (prompt f) = inl text)
   /\ path_exists w (font_path w) = true)
  /\ length (documents (events (generate_proposal w f))) <= 1
  /\ (forall data,
        In data (downloads (events (generate_proposal w f))) ->
        exists d,
          documents (events (generate_proposal w f)) = [d]
          /\ data = fpdf_output w d).
Proof.
  destruct (run_cases w f)
    as [[Hv ->]|[[Hv [e [Hg ->]]]|[[Hv [t [Hg [Hf ->]]]]|[[Hv [t [Hg [Hf [x ->]]]]]|[Hv [t [Hg [Hf [Hd [_ [_ [_ [_ Hb]]]]]]]]]]]]].
  - split; [intros H; now elim H|]. split; [simpl; lia|]. intros data [].
  - split; [intros H; now elim H|]. split; [simpl; lia|]. intros data [].
  - split; [intros H; now elim H|]. split; [simpl; lia|]. intros data [].
  - split; [intros H; now elim H|]. split; [simpl; lia|]. intros data [].
  - rewrite Hd. split; [|split; [simpl; lia|]].
    + intros _. split; [exact Hv|]. split; [exists t; exact Hg|exact Hf].
    + intros data Hin. eexists. split; [reflexivity|].
      destruct Hb as [Hb|Hb]; rewrite Hb in Hin.
      * destruct Hin.
      * destruct Hin as [<-|[]]. reflexivity.
Qed.

(** X12.  Screen and file agree: when a document is written, the text
    shown by [st.write] is the body paragraph of the document, and it is a
    cleaned text, which cleaning again would leave as it is. *)
Theorem shown_text_is_pdf_body (w : world) (f : form) (d : FPDF) :
  In d (documents (events (generate_proposal w f))) ->
  exists body ft,
    multi_cell_texts d = [body; ft]
    /\ shown (events (generate_proposal w f)) = [body]
    /\ clean_proposal_text body = body.
Proof.
  intros Hin.
  destruct (written_document w f d Hin) as [_ [_ [t [_ [-> [_ [Hs _]]]]]]].
  exists (clean_proposal_text t), (footer f).
  split; [reflexivity|]. split; [exact Hs|].
  unfold clean_proposal_text at 1.
  rewrite re_sub_stars, (strip_emphasis_fixed _ (clean_no_star t)).
  rewrite (re_sub_quiet_fixed _ (clean_quiet t)).
  unfold clean_proposal_text. apply py_strip_idempotent.
Qed.

Lemma shown_text_is_pdf_body_witness :
  exists body ft,
    multi_cell_texts
      (laid_out (font_path Demo.world_ok) (py "Hello , welcome!")
         (footer Demo.form_ok)) = [body; ft]
    /\ shown (events (generate_proposal Demo.world_ok Demo.form_ok)) = [body]
    /\ clean_proposal_text body = body.
Proof.
  apply (shown_text_is_pdf_body Demo.world_ok Demo.form_ok).
  left. reflexivity.
Defined.

Lemma generation_calls_run w f :
  generation_calls (events (generate_proposal w f))
  = if missing_fields f then [] else [prompt f].
Proof.
  destruct (missing_fields f) eqn:Hv.
  - rewrite (run_missing_fields w f Hv). reflexivity.
  - apply (valid_request_calls w f Hv).
Qed.

(** X13.  The sender's email and phone and the chosen style never reach
    the generation service: two requests that agree on client name,
    service, budget and sender name cause the same generation calls. *)
Theorem contact_details_not_sent (w : world) (f f' : form) :
  client_name f = client_name f' -> service f = service f' ->
  budget f = budget f' -> contact_name f = contact_name f' ->
  generation_calls (events (generate_proposal w f))
  = generation_calls (events (generate_proposal w f')).
Proof.
  intros H1 H2 H3 H4. rewrite !generation_calls_run.
  unfold missing_fields, prompt. rewrite H1, H2, H3, H4. reflexivity.
Qed.

Lemma contact_details_not_sent_witness :
  generation_calls (events (generate_proposal Demo.world_ok Demo.form_ok))
  = generation_calls (events (generate_proposal Demo.world_ok Demo.form_no_email)).
Proof.
  apply (contact_details_not_sent Demo.world_ok Demo.form_ok Demo.form_no_email);
    reflexivity.
Defined.



(** ** The whole script *)

Lemma script_no_key w f clicked :
  has_key w = false ->
  script w f clicked = ([StError msg_no_key], Stopped).
Proof.
  unfold has_key, script. destruct (api_key w) as [[|c k]|];
    try discriminate; reflexivity.
Qed.


(** X14.  Without an API key, or with an empty one, the script shows
    the key error and stops before the form is handled: clicked or not, no
    generation call is made and no document is written. *)
Theorem no_key_no_run (w : world) (f : form) (clicked : bool) :
  api_key w = None \/ api_key w = Some [] ->
  errors (events (script w f clicked)) = [msg_no_key]
  /\ outcome (script w f clicked) = Stopped
  /\ generation_calls (events (script w f clicked)) = []
  /\ documents (events (script w f clicked)) = [].
Proof.
  intros H. rewrite script_no_key; [repeat split|].
  unfold has_key. destruct H as [->| ->]; reflexivity.
Qed.

Lemma no_key_no_run_witness :
  outcome (script Demo.world_no_key Demo.form_ok true) = Stopped
  /\ generation_calls (events (script Demo.world_no_key Demo.form_ok true)) = [].
Proof.
  destruct (no_key_no_run Demo.world_no_key Demo.form_ok true)
    as [_ [H1 [H2 _]]]; [left; reflexivity|].
  split; [exact H1|exact H2].
Defined.



(** ** The footer *)

Lemma lines_from_single cur x :
  ~ In ch_newline x -> lines_from cur x = [rev cur ++ x].
Proof.
  revert cur. induction x as [|c x IH]; intros cur H; simpl.
  - rewrite app_nil_r. reflexivity.
  - destruct (c =? ch_newline)%N eqn:En.
    + apply N.eqb_eq in En. subst c. exfalso. apply H. now left.
    + rewrite IH by (intros Hin; apply H; now right).
      simpl. rewrite <- app_assoc. reflexivity.
Qed.

Lemma lines_single x : ~ In ch_newline x -> lines x = [x].
Proof. intros H. apply (lines_from_single [] x H). Qed.

Lemma lines_labelled (label : string) x :
  ~ In ch_newline (py label) -> ~ In ch_newline x ->
  lines (py label ++ x) = [py label ++ x].
Proof.
  intros Hl Hx. apply lines_single. intros H. apply in_app_or in H. tauto.
Qed.

Lemma footer_lines_plain f :
  ~ In ch_newline (contact_name f) -> ~ In ch_newline (contact_email f) ->
  ~ In ch_newline (contact_phone f) ->
  lines (footer f)
  = [py "---"; py "Prepared by: " ++ contact_name f;
     py "Email: " ++ contact_email f; py "Phone: " ++ contact_phone f].
Proof.
  intros H1 H2 H3. rewrite lines_footer.
  rewrite !lines_labelled by (assumption || not_in_literal). reflexivity.
Qed.

(** X16.  When name, email and phone hold no line end, the footer has
    exactly four lines: the separator, then "Prepared by: ", "Email: " and
    "Phone: ", each followed by its value. *)
Theorem footer_four_lines (f : form) :
  ~ In ch_newline (contact_name f) -> ~ In ch_newline (contact_email f) ->
  ~ In ch_newline (contact_phone f) ->
  lines (footer f)
  = [py "---"; py "Prepared by: " ++ contact_name f;
     py "Email: " ++ contact_email f; py "Phone: " ++ contact_phone f].
Proof. apply footer_lines_plain. Qed.

Lemma footer_four_lines_witness :
  lines (footer Demo.form_ok)
  = [py "---"; py "Prepared by: Bob"; py "Email: bob@x.io"; py "Phone: 555"].
Proof.
  apply (footer_four_lines Demo.form_ok); not_in_literal.
Defined.

(** X17.  Footers do not mix senders up: for contact details without
    line ends, two requests with the same footer have the same sender name,
    email and phone. *)
Theorem footer_tells_sender (f1 f2 : form) :
  ~ In ch_newline (contact_name f1) -> ~ In ch_newline (contact_email f1) ->
  ~ In ch_newline (contact_phone f1) ->
  ~ In ch_newline (contact_name f2) -> ~ In ch_newline (contact_email f2) ->
  ~ In ch_newline (contact_phone f2) ->
  footer f1 = footer f2 ->
  contact_name f1 = contact_name f2
  /\ contact_email f1 = contact_email f2
  /\ contact_phone f1 = contact_phone f2.
Proof.
  intros A1 A2 A3 B1 B2 B3 E.
  apply (f_equal lines) in E.
  rewrite (footer_lines_plain f1 A1 A2 A3), (footer_lines_plain f2 B1 B2 B3) in E.
  injection E as En Ee Ep. tauto.
Qed.

Lemma footer_tells_sender_witness :
  contact_name Demo.form_ok = contact_name Demo.form_other_client
  /\ contact_email Demo.form_ok = contact_email Demo.form_other_client
  /\ contact_phone Demo.form_ok = contact_phone Demo.form_other_client.
Proof.
  apply (footer_tells_sender Demo.form_ok Demo.form_other_client);
    [not_in_literal .. | reflexivity].
Defined.

(** ** Line by line *)

(** X18.  The two substitutions work line by line: what they make of a
    text with a line end in it is what they make of the part before,
    the line end, and what they make of the part after; a bracket on one
    line never touches another line. *)
Theorem substitutions_line_by_line (a b : pystr) :
  re_sub match_bracket (re_sub match_stars (a ++ ch_newline :: b))
  = re_sub match_bracket (re_sub match_stars a)
    ++ ch_newline :: re_sub match_bracket (re_sub match_stars b).
Proof.
  rewrite !re_sub_stars, strip_emphasis_app.
  rewrite (strip_emphasis_keep ch_newline b) by reflexivity.
  apply re_sub_newline.
Qed.
